(** * The ingress proxy of the Supervisor

    A shallow embedding of [supervisor/api/ingress.py]: the header
    transforms, the session-gated dispatcher, the HTTP proxy engine with its
    buffered-or-streamed delivery, and the WebSocket forwarding loop,
    followed by the properties proved about them.

    Conventions.  A [CIMultiDict] is an ordered list of (name, value) pairs
    whose lookups fold the letter case of names; a Python [dict] is an
    association list with exact keys, updated in place.  Code that can raise
    runs in the monad [M], which also records the calls the proxy makes on
    its collaborators (session store, registry, backend, client). *)

From Stdlib Require Import String Ascii List ZArith Bool Lia DecimalString.
Import ListNotations.
Local Open Scope list_scope.
Local Open Scope string_scope.

Set Implicit Arguments.

(** ** Python values the code relies on *)

Definition bytes := list Byte.byte.

(** Text.  A character of a [string] stands for the code point of its
    number, so that the texts of this development are the Python strings
    of code points 0 to 255; on these the functions below are the ones of
    Python.  Text with higher code points is not represented. *)
Module Py.

(** [str.lower]: the capital letters of this range are A to Z and the
    accented capitals U+00C0 to U+00DE without the multiplication sign. *)
Definition lower_char (c : ascii) : ascii :=
  let n := nat_of_ascii c in
  if ((65 <=? n)%nat && (n <=? 90)%nat)
     || ((192 <=? n)%nat && (n <=? 222)%nat && negb (n =? 215)%nat)
  then ascii_of_nat (n + 32) else c.

Fixpoint lower (s : string) : string :=
  match s with
  | EmptyString => EmptyString
  | String c r => String (lower_char c) (lower r)
  end.

(** [needle in s] on strings. *)
Definition contains (needle s : string) : bool :=
  match index 0 needle s with Some _ => true | None => false end.

(** White space as [str.strip] sees it: tab to carriage return, the four
    separators U+001C to U+001F, the blank, U+0085 and U+00A0. *)
Definition is_space (c : ascii) : bool :=
  let n := nat_of_ascii c in
  (n =? 32)%nat || ((9 <=? n)%nat && (n <=? 13)%nat)
  || ((28 <=? n)%nat && (n <=? 31)%nat) || (n =? 133)%nat || (n =? 160)%nat.

Fixpoint lstrip (s : string) : string :=
  match s with
  | String c r => if is_space c then lstrip r else s
  | EmptyString => EmptyString
  end.

Fixpoint rstrip (s : string) : string :=
  match s with
  | EmptyString => EmptyString
  | String c r =>
      match rstrip r with
      | EmptyString => if is_space c then EmptyString else String c EmptyString
      | r' => String c r'
      end
  end.

Definition strip (s : string) : string := rstrip (lstrip s).

(** [s.split(sep)] for a one-character separator: never an empty list. *)
Fixpoint split (sep : ascii) (s : string) : list string :=
  match s with
  | EmptyString => [EmptyString]
  | String c r =>
      if Ascii.eqb c sep then EmptyString :: split sep r
      else match split sep r with
           | w :: ws => String c w :: ws
           | [] => [String c EmptyString]
           end
  end.

(** [str(n)] for a non-negative integer. *)
Definition str_of_N (n : N) : string := NilEmpty.string_of_uint (N.to_uint n).

(** How an f-string renders an optional text: [None] prints as its name. *)
Definition format_opt (o : option string) : string :=
  match o with Some s => s | None => "None" end.

Definition is_digit (c : ascii) : bool :=
  let n := nat_of_ascii c in (48 <=? n)%nat && (n <=? 57)%nat.

Definition digit_value (c : ascii) : Z := Z.of_nat (nat_of_ascii c - 48).

(** The digits of a decimal literal; single underscores may separate
    digits, as [int] allows.  [after_digit] tells whether the previous
    character was a digit. *)
Fixpoint digits (acc : Z) (after_digit : bool) (s : string) : option Z :=
  match s with
  | EmptyString => if after_digit then Some acc else None
  | String c r =>
      if is_digit c then digits (10 * acc + digit_value c) true r
      else if Ascii.eqb c "_" && after_digit then digits acc false r
      else None
  end.

(** White space as [int] skips it at both ends of its argument: tab to
    carriage return, the blank, U+0085 and U+00A0, and none of the
    separators U+001C to U+001F. *)
Definition is_int_space (c : ascii) : bool :=
  let n := nat_of_ascii c in
  (n =? 32)%nat || ((9 <=? n)%nat && (n <=? 13)%nat) || (n =? 133)%nat || (n =? 160)%nat.

Fixpoint int_lstrip (s : string) : string :=
  match s with
  | String c r => if is_int_space c then int_lstrip r else s
  | EmptyString => EmptyString
  end.

Fixpoint int_rstrip (s : string) : string :=
  match s with
  | EmptyString => EmptyString
  | String c r =>
      match int_rstrip r with
      | EmptyString => if is_int_space c then EmptyString else String c EmptyString
      | r' => String c r'
      end
  end.

Fixpoint count_digits (s : string) : nat :=
  match s with
  | EmptyString => 0
  | String c r => if is_digit c then S (count_digits r) else count_digits r
  end.

(** The most digits [int] converts (sys.int_info.default_max_str_digits). *)
Definition MAX_STR_DIGITS : nat := 4300.

(** [int(text)] in base ten; [None] stands for ValueError. *)
Definition int (text : string) : option Z :=
  let literal := int_rstrip (int_lstrip text) in
  if (MAX_STR_DIGITS <? count_digits literal)%nat then None
  else match literal with
       | String "-" r => option_map Z.opp (digits 0 false r)
       | String "+" r => digits 0 false r
       | s => digits 0 false s
       end.

End Py.

(** ** Header names of [aiohttp.hdrs] *)

Module hdrs.
Definition CONNECTION := "Connection".
Definition CONTENT_ENCODING := "Content-Encoding".
Definition CONTENT_LENGTH := "Content-Length".
Definition CONTENT_TYPE := "Content-Type".
Definition SEC_WEBSOCKET_EXTENSIONS := "Sec-WebSocket-Extensions".
Definition SEC_WEBSOCKET_KEY := "Sec-WebSocket-Key".
Definition SEC_WEBSOCKET_PROTOCOL := "Sec-WebSocket-Protocol".
Definition SEC_WEBSOCKET_VERSION := "Sec-WebSocket-Version".
Definition TRANSFER_ENCODING := "Transfer-Encoding".
Definition UPGRADE := "Upgrade".
Definition X_FORWARDED_FOR := "X-Forwarded-For".
End hdrs.

(** ** Header containers *)

(** [multidict.CIMultiDict]: entries keep their order, their duplicates and
    the spelling of their names; [get] and [in] compare names with the
    letter case folded, and [get] answers with the first match. *)
Module CIMultiDict.

Definition t := list (string * string).

Definition same_name (a b : string) : bool := Py.lower a =? Py.lower b.

Definition items (d : t) : list (string * string) := d.

Fixpoint get (key : string) (d : t) : option string :=
  match d with
  | [] => None
  | (k, v) :: r => if same_name k key then Some v else get key r
  end.

Definition get_default (key : string) (d : t) (default : string) : string :=
  match get key d with Some v => v | None => default end.

Definition contains (key : string) (d : t) : bool :=
  existsb (fun kv => same_name (fst kv) key) d.

End CIMultiDict.

(** A Python [dict] keyed by text: keys compare as spelled, an assignment to
    a key already present replaces its value where it stands, a new key goes
    to the end. *)
Module Dict.

Definition t := list (string * string).

Definition empty : t := [].

Fixpoint set (key value : string) (d : t) : t :=
  match d with
  | [] => [(key, value)]
  | (k, v) :: r => if k =? key then (k, value) :: r else (k, v) :: set key value r
  end.

Fixpoint get (key : string) (d : t) : option string :=
  match d with
  | [] => None
  | (k, v) :: r => if k =? key then Some v else get key r
  end.

Definition keys (d : t) : list string := map fst d.

Definition values (d : t) : list string := map snd d.

End Dict.

(** Membership of a name in a tuple of names, [name in (a, b, ...)].  The
    names of [hdrs] and [istr(...)] are [str] values whose comparison is the
    one of [str]: the spelling counts. *)
Definition name_in (name : string) (names : list string) : bool :=
  existsb (String.eqb name) names.

(** ** Exceptions and the effect monad *)

Inductive Exn : Type :=
| HTTPUnauthorized
| HTTPServiceUnavailable
| HTTPBadGateway
| ClientError
| ClientPayloadError
| ConnectionResetError
| RuntimeError
| TypeError
| ValueError.

(** [except aiohttp.ClientError]: the payload error is a subclass. *)
Definition is_client_error (e : Exn) : bool :=
  match e with ClientError | ClientPayloadError => true | _ => false end.

(** A byte stream as the proxy reads it. *)
Record Stream : Type := {
  arrivals : list bytes;      (* the data, in the pieces the network delivers *)
  ending : option Exn         (* how the stream ends: [None] is end of file *)
}.

Inductive Body : Type :=
| LiveStream (content : Stream)      (* request.content, handed over unread *)
| Buffered (data : bytes).           (* the bytes request.read() returned *)

Record ClientCall : Type := {
  call_method : string;
  call_url : string;
  call_headers : Dict.t;
  call_params : list (string * string);
  call_data : Body
}.

(** What the proxy is seen to do: the calls it makes on its collaborators,
    in the order it makes them. *)
Inductive Event : Type :=
| ValidateSession (session : option string)
| IngressGet (token : option string)
| LogWarning (text : string)
| LogError (text : string)
| ReadRequest
| BackendRequest (call : ClientCall)
| ReadResult
| Prepare
| Write (chunk : bytes)
| WsPrepare (protocols : list string)
| WsConnect (url : string) (headers : Dict.t) (protocols : list string)
| WsRelay.

(** A computation that may raise, with the events it leaves behind. *)
Definition M (A : Type) : Type := list Event * (Exn + A).

Definition ret {A} (a : A) : M A := ([], inr a).

Definition raise {A} (e : Exn) : M A := ([], inl e).

Definition emit (ev : Event) : M unit := ([ev], inr tt).

Definition bind {A B} (m : M A) (f : A -> M B) : M B :=
  match m with
  | (t, inl e) => (t, inl e)
  | (t, inr a) => let (t', r) := f a in ((t ++ t')%list, r)
  end.

Definition lift {A} (r : Exn + A) : M A := ([], r).

(** [try: m except <caught>: handler]. *)
Definition try_except {A} (m : M A) (caught : Exn -> bool) (handler : Exn -> M A) : M A :=
  match m with
  | (t, inl e) => if caught e then let (t', r) := handler e in ((t ++ t')%list, r) else (t, inl e)
  | done => done
  end.

Declare Scope py_scope.
Delimit Scope py_scope with py.
Notation "x <- m ;; k" := (bind m (fun x => k))
  (at level 61, m at next level, right associativity) : py_scope.
Notation "m ;; k" := (bind m (fun _ => k))
  (at level 61, right associativity) : py_scope.
Local Open Scope py_scope.

(** The two parts of a run: what was done, and how it ended. *)
Definition trace {A} (m : M A) : list Event := fst m.

Definition outcome {A} (m : M A) : Exn + A := snd m.

(** The events that reach a backend over the network. *)
Definition is_backend_call (ev : Event) : bool :=
  match ev with
  | BackendRequest _ | ReadResult | WsConnect _ _ _ | WsRelay => true
  | _ => false
  end.

(** The chunks written to the client, in order. *)
Definition written (t : list Event) : list bytes :=
  flat_map (fun ev => match ev with Write chunk => [chunk] | _ => [] end) t.

(** ** Requests, add-ons and responses *)

Record Addon : Type := {
  ip_address_text : string;    (* str(addon.ip_address) *)
  ingress_port : N;
  ingress_stream : bool
}.

Record Request : Type := {
  method : string;
  headers : CIMultiDict.t;
  cookies : Dict.t;
  match_info : Dict.t;
  query_string : string;
  query : list (string * string);
  content : Stream;
  peername : option (string * N);   (* transport.get_extra_info("peername") *)
  writable : option nat             (* writes the client takes before its
                                       connection resets; [None]: all *)
}.

Record ClientResponse : Type := {
  status : N;
  result_headers : CIMultiDict.t;
  content_type : string;
  result_content : Stream
}.

Inductive Reply : Type :=
| Response (headers : Dict.t) (status : N) (content_type : string) (body : bytes)
| StreamResponse (status : N) (headers : Dict.t) (content_type : string)
| WebSocketResponse (protocols : list string).

(** The constructor [web.Response(headers=..., status=..., content_type=...,
    body=...)].  It refuses a content type that contains the text charset,
    and a [content_type] argument beside a Content-Type header, which it
    looks up in the headers without regard to letter case. *)
Module web.

Definition Response (headers : Dict.t) (status : N) (content_type : string)
    (body : bytes) : Exn + Reply :=
  if Py.contains "charset" content_type then inl ValueError
  else if CIMultiDict.contains hdrs.CONTENT_TYPE headers then inl ValueError
  else inr (Response headers status content_type body).

End web.

(** The collaborators reached through [self]: the ingress service (session
    store and add-on registry) and the client session towards the backends. *)
Record APIIngress : Type := {
  sessions_valid : string -> bool;
  sys_ingress_get : option string -> option Addon;
  sys_websession_request : ClientCall -> Exn + ClientResponse;
  sys_websession_ws_connect : string -> Dict.t -> list string -> option Exn
}.

(** Modelled from the spec: [sys_ingress.validate_session] lives in the
    ingress service, outside this file.  The store answers for a session
    credential whether it is currently valid; a request without the cookie
    carries no credential, and none is never valid ("Unauthorized:
    missing/invalid session credential"). *)
Definition sys_ingress_validate_session (self : APIIngress) (session : option string) : bool :=
  match session with
  | Some credential => sessions_valid self credential
  | None => false
  end.

(** ** Stream readers *)

(** [await stream.read()]: everything up to the end of file, or the error
    the stream ends with. *)
Definition read_all (s : Stream) : Exn + bytes :=
  match ending s with
  | None => inr (concat (arrivals s))
  | Some e => inl e
  end.

(** Reading what is left in the buffer once the stream is at its end, [n]
    bytes at a time. *)
Fixpoint drain (fuel n : nat) (buf : bytes) : list bytes :=
  match fuel with
  | O => []
  | S fuel' =>
      match buf with
      | [] => []
      | _ => firstn n buf :: drain fuel' n (skipn n buf)
      end
  end.

(** [iter_chunked(n)]: each step is [read(n)], which waits until the buffer
    holds something and returns at most [n] bytes of it.  Every element of
    [pending] is what the network has added to the buffer by the time of one
    more read. *)
Fixpoint iter_chunked_from (n : nat) (buf : bytes) (pending : list bytes) : list bytes :=
  match pending with
  | [] => drain (length buf) n buf
  | piece :: rest =>
      match buf ++ piece with
      | [] => iter_chunked_from n [] rest
      | avail => firstn n avail :: iter_chunked_from n (skipn n avail) rest
      end
  end.

Definition iter_chunked (n : nat) (s : Stream) : list bytes :=
  iter_chunked_from n [] (arrivals s).

(** ** The ingress view *)

Section Ingress.

(** Names from [api/const.py], and [str(ipaddress.ip_address(host))]: the
    canonical text of an address, [None] when the text is no address. *)
Variables HEADER_TOKEN HEADER_TOKEN_OLD COOKIE_INGRESS : string.
Variable ip_address : string -> option string.

Definition _extract_addon (self : APIIngress) (request : Request) : M Addon :=
  let token := Dict.get "token" (match_info request) in
  emit (IngressGet token) ;;
  match sys_ingress_get self token with
  | None =>
      emit (LogWarning "Ingress for %s not available") ;;
      raise HTTPServiceUnavailable
  | Some addon => ret addon
  end.

Definition _create_url (addon : Addon) (path : option string) : string :=
  "http://" ++ ip_address_text addon ++ ":" ++ Py.str_of_N (ingress_port addon)
  ++ "/" ++ Py.format_opt path.

(** The names the request direction leaves out. *)
Definition request_filter : list string :=
  [ hdrs.CONTENT_LENGTH; hdrs.CONTENT_ENCODING; hdrs.TRANSFER_ENCODING;
    hdrs.SEC_WEBSOCKET_EXTENSIONS; hdrs.SEC_WEBSOCKET_PROTOCOL;
    hdrs.SEC_WEBSOCKET_VERSION; hdrs.SEC_WEBSOCKET_KEY;
    HEADER_TOKEN; HEADER_TOKEN_OLD ].

(** [for name, value in items: if name in skip: continue; headers[name] = value]. *)
Fixpoint copy_headers (skip : list string) (items : list (string * string))
    (headers : Dict.t) : Dict.t :=
  match items with
  | [] => headers
  | (name, value) :: rest =>
      if name_in name skip then copy_headers skip rest headers
      else copy_headers skip rest (Dict.set name value headers)
  end.

Definition _init_header (request : Request) (addon : Addon) : Exn + Dict.t :=
  let inbound := headers request in
  let headers := copy_headers request_filter (CIMultiDict.items inbound) Dict.empty in
  let forward_for := CIMultiDict.get hdrs.X_FORWARDED_FOR inbound in
  match peername request with
  | None => inl TypeError
  | Some (host, _) =>
      match ip_address host with
      | None => inl ValueError
      | Some connected_ip =>
          inr (Dict.set hdrs.X_FORWARDED_FOR
                 (Py.format_opt forward_for ++ ", " ++ connected_ip) headers)
      end
  end.

Definition response_filter : list string :=
  [ hdrs.TRANSFER_ENCODING; hdrs.CONTENT_LENGTH; hdrs.CONTENT_TYPE;
    hdrs.CONTENT_ENCODING ].

Definition _response_header (response : ClientResponse) : Dict.t :=
  copy_headers response_filter (CIMultiDict.items (result_headers response)) Dict.empty.

Definition _is_websocket (request : Request) : bool :=
  let headers := headers request in
  Py.contains "upgrade" (Py.lower (CIMultiDict.get_default hdrs.CONNECTION headers ""))
  && (Py.lower (CIMultiDict.get_default hdrs.UPGRADE headers "") =? "websocket").

(** The delivery decision of the proxy engine:
    [CONTENT_LENGTH in result.headers and int(result.headers.get(CONTENT_LENGTH, 0)) < 4_194_000]. *)
Definition BUFFER_LIMIT : Z := 4194000.

Definition CHUNK_SIZE : nat := 4096.

Definition simple_request (result : ClientResponse) : Exn + bool :=
  if CIMultiDict.contains hdrs.CONTENT_LENGTH (result_headers result) then
    match Py.int (CIMultiDict.get_default hdrs.CONTENT_LENGTH (result_headers result) "0") with
    | Some length => inr (length <? BUFFER_LIMIT)%Z
    | None => inl ValueError
    end
  else inr false.

(** [await response.write(data)] for every chunk, while the client takes
    writes. *)
Fixpoint write_chunks (chunks : list bytes) (budget : option nat) : M unit :=
  match chunks with
  | [] => ret tt
  | data :: rest =>
      match budget with
      | Some O => raise ConnectionResetError
      | _ => emit (Write data) ;; write_chunks rest (option_map Nat.pred budget)
      end
  end.

(** [async for data in result.content.iter_chunked(4096): await response.write(data)]. *)
Definition relay_body (request : Request) (result : ClientResponse) : M unit :=
  write_chunks (iter_chunked CHUNK_SIZE (result_content result)) (writable request) ;;
  match ending (result_content result) with
  | None => ret tt
  | Some err => raise err
  end.

Definition stream_errors (e : Exn) : bool :=
  match e with
  | ClientError | ClientPayloadError | ConnectionResetError => true
  | _ => false
  end.

(** The body handed to the backend call. *)
Definition request_data (request : Request) (addon : Addon) : M Body :=
  if (method request =? "POST") && ingress_stream addon
  then ret (LiveStream (content request))
  else emit ReadRequest ;; data <- lift (read_all (content request)) ;; ret (Buffered data).

(** The body of [async with self.sys_websession.request(...) as result]. *)
Definition respond (request : Request) (result : ClientResponse) : M Reply :=
  let headers := _response_header result in
  simple <- lift (simple_request result) ;;
  if simple : bool then
    emit ReadResult ;;
    body <- lift (read_all (result_content result)) ;;
    lift (web.Response headers (status result) (content_type result) body)
  else
    try_except (emit Prepare ;; relay_body request result)
      stream_errors (fun _ => emit (LogError "Stream error with %s: %s")) ;;
    ret (StreamResponse (status result) headers (content_type result)).

Definition _handle_request (self : APIIngress) (request : Request) (addon : Addon)
    (path : option string) : M Reply :=
  let url := _create_url addon path in
  source_header <- lift (_init_header request addon) ;;
  data <- request_data request addon ;;
  let call := {| call_method := method request; call_url := url;
                 call_headers := source_header; call_params := query request;
                 call_data := data |} in
  emit (BackendRequest call) ;;
  result <- lift (sys_websession_request self call) ;;
  respond request result.

(** The handshake with the client, [ws_server.prepare(request)], is recorded
    as the event [WsPrepare]; the refusals of the handshake itself are those
    of aiohttp and are not modelled. *)
Definition _handle_websocket (self : APIIngress) (request : Request) (addon : Addon)
    (path : option string) : M Reply :=
  let req_protocols :=
    if CIMultiDict.contains hdrs.SEC_WEBSOCKET_PROTOCOL (headers request)
    then map Py.strip
           (Py.split ","
              (CIMultiDict.get_default hdrs.SEC_WEBSOCKET_PROTOCOL (headers request) ""))
    else [] in
  emit (WsPrepare req_protocols) ;;
  let url := _create_url addon path in
  source_header <- lift (_init_header request addon) ;;
  let url := if query_string request =? "" then url
             else url ++ "?" ++ query_string request in
  emit (WsConnect url source_header req_protocols) ;;
  match sys_websession_ws_connect self url source_header req_protocols with
  | Some err => raise err
  | None => emit WsRelay ;; ret (WebSocketResponse req_protocols)
  end.

(** The body of [handler]; the decorator [require_home_assistant] that wraps
    it belongs to [api/utils.py]. *)
Definition handler (self : APIIngress) (request : Request) : M Reply :=
  let session := Dict.get COOKIE_INGRESS (cookies request) in
  emit (ValidateSession session) ;;
  (if negb (sys_ingress_validate_session self session)
   then emit (LogWarning "No valid ingress session %s") ;; raise HTTPUnauthorized
   else ret tt) ;;
  addon <- _extract_addon self request ;;
  let path := Dict.get "path" (match_info request) in
  try_except
    (if _is_websocket request
     then _handle_websocket self request addon path
     else _handle_request self request addon path)
    is_client_error
    (fun _ => emit (LogError "Ingress error: %s") ;; raise HTTPBadGateway).

End Ingress.

(** ** The WebSocket forwarding loop *)

Inductive WSMsgType : Type :=
| CONTINUATION | TEXT | BINARY | PING | PONG | CLOSE | CLOSING | CLOSED | ERROR.

(** What a message carries in [msg.data]. *)
Inductive Payload : Type :=
| Text (s : string)
| Binary (b : bytes)
| Code (n : Z)
| NoData.

Record WSMessage : Type := {
  msg_type : WSMsgType;
  data : Payload;
  extra : option string
}.

(** The calls the loop makes on its destination. *)
Inductive WSCall : Type :=
| SendStr (data : Payload)
| SendBytes (data : Payload)
| SendPing
| SendPong
| SendClose (code : option Z) (message : option string).

(** The result of one run of the loop: the destination as it is left, the
    calls made on it in order, whether the warning was logged, and the
    exception that leaves the coroutine, if any. *)
Record Forwarded (Conn : Type) : Type := {
  ws_after : Conn;
  calls : list WSCall;
  warned : bool;
  escaped : option Exn
}.

Section Forward.

(** The destination connection [ws_to]: its state, the two attributes the
    loop reads, what a call does to it (the state after, and the exception
    the call raises, if any), and what may happen to it while the loop
    waits for the next message of its source. *)
Variable Conn : Type.
Variable closed : Conn -> bool.
Variable close_code : Conn -> option Z.
Variable perform : WSCall -> Conn -> Conn * option Exn.
Variable meanwhile : Conn -> Conn.

Definition call_on (ws_to : Conn) (c : WSCall) : Conn * list WSCall * option Exn :=
  let (ws_to', err) := perform c ws_to in (ws_to', [c], err).

(** The body of the loop, for one message. *)
Definition forward_msg (msg : WSMessage) (ws_to : Conn) : Conn * list WSCall * option Exn :=
  match msg_type msg with
  | TEXT => call_on ws_to (SendStr (data msg))
  | BINARY => call_on ws_to (SendBytes (data msg))
  | PING => call_on ws_to SendPing
  | PONG => call_on ws_to SendPong
  | _ =>
      if closed ws_to
      then call_on ws_to (SendClose (close_code ws_to) (extra msg))
      else (ws_to, [], None)
  end.

(** [async for msg in ws_from: ...] over the messages the source yields
    ([yielded], below, gives what a WebSocket of aiohttp yields of what it
    receives); [stop] is the exception its iteration ends with, [None] when
    it just ends. *)
Fixpoint forward_loop (msgs : list WSMessage) (stop : option Exn) (ws_to : Conn)
    : Conn * list WSCall * option Exn :=
  match msgs with
  | [] => (ws_to, [], stop)
  | msg :: rest =>
      match forward_msg msg (meanwhile ws_to) with
      | (ws_to', made, Some err) => (ws_to', made, Some err)
      | (ws_to', made, None) =>
          let '(ws_end, more, err) := forward_loop rest stop ws_to' in
          (ws_end, (made ++ more)%list, err)
      end
  end.

Definition _websocket_forward (msgs : list WSMessage) (stop : option Exn) (ws_to : Conn)
    : Forwarded Conn :=
  match forward_loop msgs stop ws_to with
  | (ws_end, made, Some RuntimeError) =>
      {| ws_after := ws_end; calls := made; warned := true; escaped := None |}
  | (ws_end, made, err) =>
      {| ws_after := ws_end; calls := made; warned := false; escaped := err |}
  end.

End Forward.




Section Received.

Variable Conn : Type.
Variable closed : Conn -> bool.
Variable close_code : Conn -> option Z.
Variable perform : WSCall -> Conn -> Conn * option Exn.
Variable meanwhile : Conn -> Conn.


End Received.

(** The frames the loop translates one for one, and their translation. *)
Definition is_data_frame (msg : WSMessage) : bool :=
  match msg_type msg with
  | TEXT | BINARY | PING | PONG => true
  | _ => false
  end.

Definition forwarded_as (msg : WSMessage) : WSCall :=
  match msg_type msg with
  | TEXT => SendStr (data msg)
  | BINARY => SendBytes (data msg)
  | PING => SendPing
  | _ => SendPong
  end.

Definition is_close_call (c : WSCall) : bool :=
  match c with SendClose _ _ => true | _ => false end.

(** ** Concrete collaborators *)

(** [ipaddress.ip_address] on dotted-quad text, printed back: four decimal
    octets without leading zeros.  The text of such an address is the text
    it was read from. *)
Definition octet (part : string) : bool :=
  match part with
  | EmptyString => false
  | String first rest =>
      forallb Py.is_digit (list_ascii_of_string part)
      && (String.length part <=? 3)%nat
      && (negb (Ascii.eqb first "0") || (rest =? ""))
      && match Py.digits 0 false part with
         | Some v => (v <=? 255)%Z
         | None => false
         end
  end.

Definition ipv4_address (host : string) : option string :=
  match Py.split "." host with
  | [a; b; c; d] => if octet a && octet b && octet c && octet d then Some host else None
  | _ => None
  end.

Module Sample.

Definition HEADER_TOKEN := "X-Supervisor-Token".
Definition HEADER_TOKEN_OLD := "X-Hassio-Key".
Definition COOKIE_INGRESS := "ingress_session".

Definition addon : Addon :=
  {| ip_address_text := "172.30.33.2"; ingress_port := 8099; ingress_stream := false |}.

Definition streaming_addon : Addon :=
  {| ip_address_text := "172.30.33.3"; ingress_port := 8099; ingress_stream := true |}.

Definition body : bytes := [Byte.x68; Byte.x65; Byte.x6c; Byte.x6c; Byte.x6f].

(** A request from peer 10.0.0.5 with the given method, headers and cookies,
    for the token [tok]. *)
Definition request (meth : string) (hs : CIMultiDict.t) (cs : Dict.t) (tok : string) : Request :=
  {| method := meth; headers := hs; cookies := cs;
     match_info := [("token", tok); ("path", "index.html")];
     query_string := ""; query := [];
     content := {| arrivals := [body]; ending := None |};
     peername := Some ("10.0.0.5", 51234%N);
     writable := None |}.

Definition result (hs : CIMultiDict.t) (pieces : list bytes) : ClientResponse :=
  {| status := 200; result_headers := hs; content_type := "text/plain";
     result_content := {| arrivals := pieces; ending := None |} |}.

(** One valid session, one add-on behind the token "abc", a backend that
    answers every call with the same short page. *)
Definition self : APIIngress :=
  {| sessions_valid := fun credential => credential =? "s3ss10n";
     sys_ingress_get := fun token =>
       match token with
       | Some t => if t =? "abc" then Some addon else None
       | None => None
       end;
     sys_websession_request := fun _ => inr (result [("Content-Length", "5")] [body]);
     sys_websession_ws_connect := fun _ _ _ => None |}.

(** A POST with a body, and the calls it leads to on an add-on that takes
    streams and on one that does not. *)
Definition post_request : Request := request "POST" [] [] "abc".

Definition live_call : ClientCall :=
  {| call_method := "POST"; call_url := "http://172.30.33.3:8099/index.html";
     call_headers := [("X-Forwarded-For", "None, 10.0.0.5")]; call_params := [];
     call_data := LiveStream (content post_request) |}.

Definition buffered_call : ClientCall :=
  {| call_method := "POST"; call_url := "http://172.30.33.2:8099/index.html";
     call_headers := [("X-Forwarded-For", "None, 10.0.0.5")]; call_params := [];
     call_data := Buffered body |}.

(** A destination connection: open or closed with a close code; a call on
    it raises nothing. *)
Record Conn : Type := { is_closed : bool; code : option Z }.

Definition perform (c : WSCall) (ws : Conn) : Conn * option Exn := (ws, None).

Definition meanwhile (ws : Conn) : Conn := ws.

Definition text_msg (s : string) : WSMessage :=
  {| msg_type := TEXT; data := Text s; extra := Some "" |}.

Definition binary_msg (b : bytes) : WSMessage :=
  {| msg_type := BINARY; data := Binary b; extra := Some "" |}.

Definition ping_msg : WSMessage :=
  {| msg_type := PING; data := Binary []; extra := Some "" |}.

Definition pong_msg : WSMessage :=
  {| msg_type := PONG; data := Binary []; extra := Some "" |}.

End Sample.

(** ** Reference notions used by the statements *)

(** The value of the last entry of [items] spelled [name]. *)
Fixpoint last_value (name : string) (items : list (string * string)) : option string :=
  match items with
  | [] => None
  | (k, v) :: rest =>
      match last_value name rest with
      | Some later => Some later
      | None => if k =? name then Some v else None
      end
  end.

(** The length a backend response declares: [None] when it has no
    Content-Length header, ValueError when the header is no number. *)
Definition declared_length (result : ClientResponse) : Exn + option Z :=
  match CIMultiDict.get hdrs.CONTENT_LENGTH (result_headers result) with
  | None => inr None
  | Some text =>
      match Py.int text with
      | Some length => inr (Some length)
      | None => inl ValueError
      end
  end.

(** Chunks of at least one and at most [n] bytes. *)
Definition chunks_within (n : nat) (chunks : list bytes) : Prop :=
  Forall (fun chunk => 0 < length chunk <= n) chunks.

(** Every chunk but the last has exactly [n] bytes. *)
Definition full_but_last (n : nat) (chunks : list bytes) : Prop :=
  forall i, S i < length chunks -> length (nth i chunks []) = n.

(** The calls of a run other than [close]. *)
Definition data_calls (made : list WSCall) : list WSCall :=
  filter (fun c => negb (is_close_call c)) made.

(** ** Properties of the containers *)

Lemma dict_get_set_same (key value : string) (d : Dict.t) :
  Dict.get key (Dict.set key value d) = Some value.
Proof.
  induction d as [|[k v] r IH]; simpl.
  - now rewrite String.eqb_refl.
  - destruct (k =? key) eqn:E; simpl; rewrite E; auto.
Qed.

Lemma dict_get_set_other (key key' value : string) (d : Dict.t) :
  key <> key' -> Dict.get key' (Dict.set key value d) = Dict.get key' d.
Proof.
  intros Hne. induction d as [|[k v] r IH]; simpl.
  - destruct (key =? key') eqn:E; auto.
    apply String.eqb_eq in E. contradiction.
  - destruct (k =? key) eqn:E; simpl.
    + apply String.eqb_eq in E. subst k.
      destruct (key =? key') eqn:E'; auto.
      apply String.eqb_eq in E'. contradiction.
    + destruct (k =? key'); auto.
Qed.

Lemma dict_keys_set (key value name : string) (d : Dict.t) :
  In name (Dict.keys (Dict.set key value d)) <-> name = key \/ In name (Dict.keys d).
Proof.
  unfold Dict.keys. induction d as [|[k v] r IH]; simpl.
  - intuition.
  - destruct (k =? key) eqn:E; simpl.
    + apply String.eqb_eq in E. subst k. intuition.
    + rewrite IH. intuition.
Qed.

Lemma dict_set_nodup (key value : string) (d : Dict.t) :
  NoDup (Dict.keys d) -> NoDup (Dict.keys (Dict.set key value d)).
Proof.
  unfold Dict.keys. induction d as [|[k v] r IH]; simpl; intros Hnd.
  - constructor; [intros [] | constructor].
  - inversion Hnd as [|? ? Hnotin Hrest]; subst.
    destruct (k =? key) eqn:E; simpl.
    + constructor; assumption.
    + constructor; [| now apply IH].
      intros Hin. apply (dict_keys_set key value k r) in Hin.
      destruct Hin as [Heq | Hin]; [| contradiction].
      subst k. now rewrite String.eqb_refl in E.
Qed.

Lemma dict_get_in_keys (key : string) (d : Dict.t) :
  In key (Dict.keys d) <-> Dict.get key d <> None.
Proof.
  unfold Dict.keys. induction d as [|[k v] r IH]; simpl.
  - intuition.
  - destruct (k =? key) eqn:E.
    + apply String.eqb_eq in E. split; [discriminate | auto].
    + apply String.eqb_neq in E. rewrite <- IH. intuition.
Qed.

Lemma name_in_spec (name : string) (names : list string) :
  name_in name names = true <-> In name names.
Proof.
  unfold name_in. rewrite existsb_exists. split.
  - intros [x [Hin Heq]]. apply String.eqb_eq in Heq. now subst.
  - intros Hin. exists name. split; [assumption | apply String.eqb_refl].
Qed.

Lemma cimultidict_contains_get (key : string) (d : CIMultiDict.t) :
  CIMultiDict.contains key d = true <-> CIMultiDict.get key d <> None.
Proof.
  unfold CIMultiDict.contains. induction d as [|[k v] r IH]; simpl.
  - split; [discriminate | congruence].
  - destruct (CIMultiDict.same_name k key); simpl.
    + split; [discriminate | reflexivity].
    + exact IH.
Qed.

Lemma last_value_in (name : string) (items : list (string * string)) :
  last_value name items <> None <-> exists value, In (name, value) items.
Proof.
  induction items as [|[k v] rest IH]; simpl.
  - split; [congruence | intros [? []]].
  - destruct (last_value name rest) as [later|].
    + split; [intros _ | discriminate].
      destruct IH as [IH _]. destruct IH as [w Hw]; [discriminate |].
      exists w. now right.
    + destruct (k =? name) eqn:E.
      * apply String.eqb_eq in E. subst k.
        split; [intros _; exists v; now left | discriminate].
      * apply String.eqb_neq in E. split; [congruence |].
        intros [w [Heq | Hin]].
        -- inversion Heq. contradiction.
        -- destruct IH as [_ IH]. exfalso. apply IH; [now exists w | reflexivity].
Qed.

(** ** Properties of the header transform *)

Section HeaderTransform.

Variables HEADER_TOKEN HEADER_TOKEN_OLD : string.
Variable ip_address : string -> option string.

(** After the copy loop a name holds the last value the loop assigned to it,
    and a skipped name holds what it held before. *)
Lemma copy_headers_get (skip : list string) (items : list (string * string)) :
  forall (d : Dict.t) (name : string),
    Dict.get name (copy_headers skip items d) =
    if name_in name skip then Dict.get name d
    else match last_value name items with
         | Some value => Some value
         | None => Dict.get name d
         end.
Proof.
  induction items as [|[k v] rest IH]; intros d name; simpl.
  - now destruct (name_in name skip).
  - destruct (name_in k skip) eqn:Hk; rewrite IH.
    + destruct (name_in name skip) eqn:Hn; [reflexivity |].
      destruct (last_value name rest); [reflexivity |].
      destruct (k =? name) eqn:E; [| reflexivity].
      apply String.eqb_eq in E. congruence.
    + destruct (name_in name skip) eqn:Hn.
      * apply dict_get_set_other. congruence.
      * destruct (last_value name rest); [reflexivity |].
        destruct (k =? name) eqn:E.
        -- apply String.eqb_eq in E. subst k. apply dict_get_set_same.
        -- apply String.eqb_neq in E. now apply dict_get_set_other.
Qed.

Lemma copy_headers_nodup (skip : list string) (items : list (string * string)) :
  forall d : Dict.t, NoDup (Dict.keys d) -> NoDup (Dict.keys (copy_headers skip items d)).
Proof.
  induction items as [|[k v] rest IH]; intros d Hd; simpl; [assumption |].
  destruct (name_in k skip); apply IH; [assumption | now apply dict_set_nodup].
Qed.

Lemma copy_headers_keys (skip : list string) (items : list (string * string)) (name : string) :
  In name (Dict.keys (copy_headers skip items Dict.empty)) <->
  name_in name skip = false /\ exists value, In (name, value) items.
Proof.
  rewrite dict_get_in_keys, copy_headers_get. simpl.
  destruct (name_in name skip).
  - split; [congruence | intros [? _]; discriminate].
  - rewrite <- last_value_in.
    destruct (last_value name items); split; try congruence; intuition congruence.
Qed.

(** What [_init_header] returns when it returns: the copied headers with the
    forwarded-for entry assigned last. *)
Lemma init_header_inv (request : Request) (addon : Addon) (out : Dict.t) :
  _init_header HEADER_TOKEN HEADER_TOKEN_OLD ip_address request addon = inr out ->
  exists host port connected_ip,
    peername request = Some (host, port) /\ ip_address host = Some connected_ip /\
    out = Dict.set hdrs.X_FORWARDED_FOR
            (Py.format_opt (CIMultiDict.get hdrs.X_FORWARDED_FOR (headers request))
             ++ ", " ++ connected_ip)
            (copy_headers (request_filter HEADER_TOKEN HEADER_TOKEN_OLD)
               (headers request) Dict.empty).
Proof.
  unfold _init_header, CIMultiDict.items.
  destruct (peername request) as [[host port]|]; [| discriminate].
  destruct (ip_address host) as [connected_ip|] eqn:Hip; [| discriminate].
  intros H. injection H as <-. now exists host, port, connected_ip.
Qed.

Lemma filtered_name_cases (name : string) :
  In name (request_filter HEADER_TOKEN HEADER_TOKEN_OLD) ->
  name <> hdrs.X_FORWARDED_FOR \/ name = HEADER_TOKEN \/ name = HEADER_TOKEN_OLD.
Proof.
  unfold request_filter. simpl.
  intros [H|[H|[H|[H|[H|[H|[H|[H|[H|[]]]]]]]]]]; subst;
    solve [left; discriminate | right; left; reflexivity | right; right; reflexivity].
Qed.

(** X15: what the filter of the request direction does: the outbound header
    set holds no name spelled exactly as one of the nine filtered names (the
    two token header names being other names than X-Forwarded-For, which is
    always set), and every inbound name that is not spelled as one of them,
    the same name in another letter case included, is a name of the outbound
    set. *)
Theorem init_header_filters_spelled_names (request : Request) (addon : Addon) (out : Dict.t) :
  HEADER_TOKEN <> hdrs.X_FORWARDED_FOR ->
  HEADER_TOKEN_OLD <> hdrs.X_FORWARDED_FOR ->
  _init_header HEADER_TOKEN HEADER_TOKEN_OLD ip_address request addon = inr out ->
  (forall name, In name (request_filter HEADER_TOKEN HEADER_TOKEN_OLD) ->
                ~ In name (Dict.keys out)) /\
  (forall name value, In (name, value) (headers request) ->
                      ~ In name (request_filter HEADER_TOKEN HEADER_TOKEN_OLD) ->
                      In name (Dict.keys out)).
Proof.
  intros Htok Hold Hout.
  destruct (init_header_inv _ _ Hout) as (host & port & ip & _ & _ & ->).
  split.
  - intros name Hin Hkey.
    apply dict_keys_set in Hkey. destruct Hkey as [Heq | Hkey].
    + destruct (filtered_name_cases Hin) as [H | [H | H]]; congruence.
    + apply copy_headers_keys in Hkey. destruct Hkey as [Hskip _].
      apply name_in_spec in Hin. congruence.
  - intros name value Hin Hskip.
    apply dict_keys_set. right. apply copy_headers_keys. split.
    + destruct (name_in name (request_filter HEADER_TOKEN HEADER_TOKEN_OLD)) eqn:E;
        [| reflexivity].
      apply name_in_spec in E. contradiction.
    + now exists value.
Qed.

(** C9, as amended: the outbound header set has one entry per spelling of a
    header name, and for a spelling other than those of the filtered names
    and of X-Forwarded-For its value is the last of the inbound values under
    that very spelling: earlier values under the same spelling are dropped,
    values under another spelling of the name stay under their own. *)
Theorem init_header_keeps_last_value (request : Request) (addon : Addon) (out : Dict.t)
    (name : string) :
  _init_header HEADER_TOKEN HEADER_TOKEN_OLD ip_address request addon = inr out ->
  ~ In name (request_filter HEADER_TOKEN HEADER_TOKEN_OLD) ->
  name <> hdrs.X_FORWARDED_FOR ->
  NoDup (Dict.keys out) /\ Dict.get name out = last_value name (headers request).
Proof.
  intros Hout Hskip Hxff.
  destruct (init_header_inv _ _ Hout) as (host & port & ip & _ & _ & ->).
  split.
  - apply dict_set_nodup, copy_headers_nodup. constructor.
  - rewrite dict_get_set_other by congruence.
    rewrite copy_headers_get.
    destruct (name_in name (request_filter HEADER_TOKEN HEADER_TOKEN_OLD)) eqn:E.
    + apply name_in_spec in E. contradiction.
    + now destruct (last_value name (headers request)).
Qed.

(** The forwarded-for entry of the outbound set: the prior value as an
    f-string prints it, a comma and a blank, and the peer address. *)
Lemma init_header_forwarded_for (request : Request) (addon : Addon) (out : Dict.t) :
  _init_header HEADER_TOKEN HEADER_TOKEN_OLD ip_address request addon = inr out ->
  exists host port connected_ip,
    peername request = Some (host, port) /\ ip_address host = Some connected_ip /\
    Dict.get hdrs.X_FORWARDED_FOR out =
    Some (Py.format_opt (CIMultiDict.get hdrs.X_FORWARDED_FOR (headers request))
          ++ ", " ++ connected_ip).
Proof.
  intros Hout.
  destruct (init_header_inv _ _ Hout) as (host & port & ip & Hpeer & Hip & ->).
  exists host, port, ip. repeat split; try assumption.
  apply dict_get_set_same.
Qed.

End HeaderTransform.

(** ** Properties of the dispatcher *)

Section Dispatcher.

Variables HEADER_TOKEN HEADER_TOKEN_OLD COOKIE_INGRESS : string.
Variable ip_address : string -> option string.

(** C2: a request whose session cookie is absent, or holds a credential the
    session store reports invalid, ends in HTTPUnauthorized after the one
    session check and its warning: the registry is not asked for the token
    and nothing reaches a backend. *)
Theorem handler_rejects_invalid_session (self : APIIngress) (request : Request) :
  (Dict.get COOKIE_INGRESS (cookies request) = None \/
   exists credential,
     Dict.get COOKIE_INGRESS (cookies request) = Some credential /\
     sessions_valid self credential = false) ->
  handler HEADER_TOKEN HEADER_TOKEN_OLD COOKIE_INGRESS ip_address self request =
    ([ValidateSession (Dict.get COOKIE_INGRESS (cookies request));
      LogWarning "No valid ingress session %s"],
     inl HTTPUnauthorized) /\
  (forall token,
     ~ In (IngressGet token)
          (trace (handler HEADER_TOKEN HEADER_TOKEN_OLD COOKIE_INGRESS ip_address self request))) /\
  existsb is_backend_call
    (trace (handler HEADER_TOKEN HEADER_TOKEN_OLD COOKIE_INGRESS ip_address self request)) = false.
Proof.
  intros Hsession.
  assert (Hinvalid : sys_ingress_validate_session self
                       (Dict.get COOKIE_INGRESS (cookies request)) = false).
  { destruct Hsession as [-> | [credential [-> Hno]]]; simpl; auto. }
  assert (Hrun : handler HEADER_TOKEN HEADER_TOKEN_OLD COOKIE_INGRESS ip_address self request =
                 ([ValidateSession (Dict.get COOKIE_INGRESS (cookies request));
                   LogWarning "No valid ingress session %s"],
                  inl HTTPUnauthorized)).
  { unfold handler. rewrite Hinvalid. reflexivity. }
  rewrite Hrun. split; [reflexivity | split].
  - intros token [H | [H | []]]; discriminate.
  - reflexivity.
Qed.

(** C3: an authorized request whose token the registry does not know ends in
    HTTPServiceUnavailable right after the lookup: no WebSocket handshake,
    no backend request, no read from a backend. *)
Theorem handler_unknown_token_unavailable (self : APIIngress) (request : Request) :
  sys_ingress_validate_session self (Dict.get COOKIE_INGRESS (cookies request)) = true ->
  sys_ingress_get self (Dict.get "token" (match_info request)) = None ->
  handler HEADER_TOKEN HEADER_TOKEN_OLD COOKIE_INGRESS ip_address self request =
    ([ValidateSession (Dict.get COOKIE_INGRESS (cookies request));
      IngressGet (Dict.get "token" (match_info request));
      LogWarning "Ingress for %s not available"],
     inl HTTPServiceUnavailable) /\
  existsb is_backend_call
    (trace (handler HEADER_TOKEN HEADER_TOKEN_OLD COOKIE_INGRESS ip_address self request)) = false.
Proof.
  intros Hvalid Hunknown.
  assert (Hrun : handler HEADER_TOKEN HEADER_TOKEN_OLD COOKIE_INGRESS ip_address self request =
                 ([ValidateSession (Dict.get COOKIE_INGRESS (cookies request));
                   IngressGet (Dict.get "token" (match_info request));
                   LogWarning "Ingress for %s not available"],
                  inl HTTPServiceUnavailable)).
  { unfold handler, _extract_addon. rewrite Hvalid, Hunknown. reflexivity. }
  rewrite Hrun. split; reflexivity.
Qed.

End Dispatcher.

(** ** Properties of the stream readers *)

Section Chunking.

Variable n : nat.
Hypothesis n_positive : 0 < n.

Lemma drain_concat (fuel : nat) :
  forall buf : bytes, length buf <= fuel -> concat (drain fuel n buf) = buf.
Proof.
  induction fuel as [|fuel IH]; intros buf Hlen.
  - destruct buf; [reflexivity | simpl in Hlen; lia].
  - destruct buf as [|b bs]; [reflexivity |].
    cbn [drain concat]. rewrite IH.
    + apply firstn_skipn.
    + rewrite length_skipn. cbn [Datatypes.length] in *; lia.
Qed.

Lemma drain_within (fuel : nat) :
  forall buf : bytes, chunks_within n (drain fuel n buf).
Proof.
  unfold chunks_within.
  induction fuel as [|fuel IH]; intros buf; [constructor |].
  destruct buf as [|b bs]; [constructor |].
  cbn [drain]. constructor; [| apply IH].
  rewrite length_firstn. cbn [Datatypes.length]. lia.
Qed.

Lemma drain_nil_inv (fuel : nat) (buf : bytes) :
  length buf <= fuel -> drain fuel n buf = [] -> buf = [].
Proof.
  destruct fuel; destruct buf; simpl; intros; try reflexivity; try lia; discriminate.
Qed.

Lemma drain_full_but_last (fuel : nat) :
  forall buf : bytes, length buf <= fuel -> full_but_last n (drain fuel n buf).
Proof.
  unfold full_but_last.
  induction fuel as [|fuel IH]; intros buf Hlen i Hi; [simpl in Hi; lia |].
  destruct buf as [|b bs]; [simpl in Hi; lia |].
  cbn [drain] in *.
  assert (Hrest : length (skipn n (b :: bs)) <= fuel).
  { rewrite length_skipn. cbn [Datatypes.length] in *; lia. }
  destruct i as [|i].
  - cbn [nth]. rewrite length_firstn.
    destruct (drain fuel n (skipn n (b :: bs))) eqn:E; [simpl in Hi; lia |].
    assert (Hne : skipn n (b :: bs) <> []).
    { intros Hnil. rewrite Hnil in E. destruct fuel; discriminate. }
    assert (length (skipn n (b :: bs)) <> 0).
    { destruct (skipn n (b :: bs)); [congruence | simpl; lia]. }
    rewrite length_skipn in *. lia.
  - cbn [nth]. apply IH; [assumption | simpl in Hi; lia].
Qed.

Lemma iter_chunked_from_concat (pending : list bytes) :
  forall buf : bytes,
    concat (iter_chunked_from n buf pending) = (buf ++ concat pending)%list.
Proof.
  induction pending as [|piece rest IH]; intros buf.
  - cbn [iter_chunked_from concat]. rewrite app_nil_r. now apply drain_concat.
  - cbn [iter_chunked_from concat]. rewrite app_assoc.
    destruct (buf ++ piece)%list as [|b bs] eqn:E.
    + apply IH.
    + cbn [concat]. rewrite IH, app_assoc. now rewrite firstn_skipn.
Qed.

Lemma iter_chunked_from_within (pending : list bytes) :
  forall buf : bytes, chunks_within n (iter_chunked_from n buf pending).
Proof.
  induction pending as [|piece rest IH]; intros buf.
  - apply drain_within.
  - cbn [iter_chunked_from].
    destruct (buf ++ piece)%list as [|b bs]; [apply IH |].
    constructor; [| apply IH].
    rewrite length_firstn. cbn [Datatypes.length]. lia.
Qed.

(** A body the buffer holds whole is cut into full chunks and a rest. *)
Lemma iter_chunked_whole (body : bytes) :
  full_but_last n (iter_chunked_from n [] [body]).
Proof.
  cbn [iter_chunked_from app].
  destruct body as [|b bs]; [intros i Hi; simpl in Hi; lia |].
  change (firstn n (b :: bs) :: drain (length (skipn n (b :: bs))) n (skipn n (b :: bs)))
    with (drain (S (length (skipn n (b :: bs)))) n (b :: bs)).
  intros i Hi. destruct i as [|i].
  - cbn [drain nth] in *. rewrite length_firstn.
    destruct (drain (length (skipn n (b :: bs))) n (skipn n (b :: bs))) eqn:E;
      [simpl in Hi; lia |].
    assert (length (skipn n (b :: bs)) <> 0).
    { destruct (skipn n (b :: bs)); [discriminate | simpl; lia]. }
    rewrite length_skipn in *. lia.
  - cbn [drain nth] in *. apply drain_full_but_last; [lia | simpl in Hi; lia].
Qed.

End Chunking.

(** ** Properties of the proxy engine *)

Lemma write_chunks_run (chunks : list bytes) :
  forall budget : option nat,
    write_chunks chunks budget =
    (map Write (match budget with None => chunks | Some k => firstn k chunks end),
     match budget with
     | None => inr tt
     | Some k => if (length chunks <=? k)%nat then inr tt else inl ConnectionResetError
     end).
Proof.
  induction chunks as [|c rest IH]; intros budget.
  - destruct budget as [[|k]|]; reflexivity.
  - destruct budget as [[|k]|]; [reflexivity | |];
      cbn [write_chunks]; unfold bind, emit; rewrite IH; reflexivity.
Qed.

Lemma written_writes (chunks : list bytes) : written (map Write chunks) = chunks.
Proof.
  unfold written. induction chunks as [|c rest IH]; simpl; congruence.
Qed.

Lemma written_app (t u : list Event) : written (t ++ u) = (written t ++ written u)%list.
Proof. unfold written. apply flat_map_app. Qed.

Lemma simple_request_declared (result : ClientResponse) :
  simple_request result =
  match declared_length result with
  | inl err => inl err
  | inr (Some length) => inr (length <? BUFFER_LIMIT)%Z
  | inr None => inr false
  end.
Proof.
  unfold simple_request, declared_length, CIMultiDict.get_default.
  destruct (CIMultiDict.contains hdrs.CONTENT_LENGTH (result_headers result)) eqn:E.
  - apply cimultidict_contains_get in E.
    destruct (CIMultiDict.get hdrs.CONTENT_LENGTH (result_headers result)); [| congruence].
    now destruct (Py.int s).
  - destruct (CIMultiDict.get hdrs.CONTENT_LENGTH (result_headers result)) eqn:G;
      [| reflexivity].
    assert (CIMultiDict.contains hdrs.CONTENT_LENGTH (result_headers result) = true)
      by (apply cimultidict_contains_get; congruence).
    congruence.
Qed.

(** What a streamed response writes: the chunks of the backend body, as many
    as the client takes. *)
Lemma respond_streamed (request : Request) (result : ClientResponse) :
  simple_request result = inr false ->
  written (trace (respond request result)) =
    match writable request with
    | None => iter_chunked CHUNK_SIZE (result_content result)
    | Some k => firstn k (iter_chunked CHUNK_SIZE (result_content result))
    end /\
  (ending (result_content result) = None -> writable request = None ->
   outcome (respond request result) =
     inr (StreamResponse (status result) (_response_header result) (content_type result))).
Proof.
  intros Hsimple. unfold respond, relay_body. rewrite Hsimple.
  rewrite write_chunks_run.
  set (chunks := iter_chunked CHUNK_SIZE (result_content result)). clearbody chunks.
  destruct (writable request) as [k|];
    [destruct (length chunks <=? k)%nat |];
    destruct (ending (result_content result)) as [e|]; try destruct e;
    cbn; rewrite ?app_nil_r, ?written_app, ?written_writes; cbn; rewrite ?app_nil_r.
  all: split; [reflexivity | intros; try discriminate; reflexivity].
Qed.

Lemma chunks_within_firstn (n k : nat) (chunks : list bytes) :
  chunks_within n chunks -> chunks_within n (firstn k chunks).
Proof.
  unfold chunks_within. intros H. revert k.
  induction H as [|c rest Hc Hrest IH]; intros [|k]; cbn [firstn]; constructor; auto.
Qed.

Lemma full_but_last_firstn (n k : nat) (chunks : list bytes) :
  full_but_last n chunks -> full_but_last n (firstn k chunks).
Proof.
  unfold full_but_last. intros H i Hi.
  rewrite length_firstn in Hi. rewrite nth_firstn.
  destruct (Nat.ltb_spec i k); [apply H |]; lia.
Qed.

(** C5, as amended: for a response whose declared length, if any, is a
    number: a length below 4,194,000 makes the proxy read the body whole
    and, where the stream ends regularly and the constructor of the
    response takes its arguments (a content type without the text charset,
    no Content-Type header of any spelling left among the filtered headers),
    return it as one buffered response.  No declared length, or one at or
    above the limit, makes it stream: the body is written in chunks of at
    least one and at most 4096 bytes that are a prefix of it, cut at exactly
    4096 bytes when the buffer holds the body whole, and all of it, byte for
    byte, when neither side fails on the way. *)
Theorem delivery_mode (request : Request) (result : ClientResponse) (declared : option Z) :
  declared_length result = inr declared ->
  (forall size, declared = Some size -> (size < 4194000)%Z ->
     ending (result_content result) = None ->
     Py.contains "charset" (content_type result) = false ->
     CIMultiDict.contains hdrs.CONTENT_TYPE (_response_header result) = false ->
     respond request result =
       ([ReadResult],
        inr (Response (_response_header result) (status result) (content_type result)
               (concat (arrivals (result_content result)))))) /\
  ((declared = None \/ exists size, declared = Some size /\ (4194000 <= size)%Z) ->
     chunks_within 4096 (written (trace (respond request result))) /\
     (exists rest,
        (concat (written (trace (respond request result))) ++ rest)%list =
        concat (arrivals (result_content result))) /\
     (forall body, arrivals (result_content result) = [body] ->
        full_but_last 4096 (written (trace (respond request result)))) /\
     (ending (result_content result) = None -> writable request = None ->
        outcome (respond request result) =
          inr (StreamResponse (status result) (_response_header result)
                 (content_type result)) /\
        concat (written (trace (respond request result))) =
          concat (arrivals (result_content result)))).
Proof.
  intros Hdeclared.
  pose proof (simple_request_declared result) as Hsimple.
  rewrite Hdeclared in Hsimple.
  change 4096 with CHUNK_SIZE. change 4194000%Z with BUFFER_LIMIT.
  assert (Hpos : 0 < CHUNK_SIZE) by (unfold CHUNK_SIZE; lia).
  split.
  - intros size -> Hbelow Hend Hcharset Htype.
    apply Z.ltb_lt in Hbelow. rewrite Hbelow in Hsimple.
    unfold respond, read_all, web.Response.
    rewrite Hsimple, Hend, Hcharset, Htype. reflexivity.
  - intros Hstream.
    assert (Hfalse : simple_request result = inr false).
    { destruct Hstream as [-> | [size [-> Habove]]]; [assumption |].
      apply Z.ltb_ge in Habove. now rewrite Habove in Hsimple. }
    destruct (@respond_streamed request result Hfalse) as [Hsent Hdone].
    pose proof (iter_chunked_from_concat Hpos (arrivals (result_content result)) [])
      as Hall.
    pose proof (iter_chunked_from_within Hpos (arrivals (result_content result)) [])
      as Hsizes.
    fold (iter_chunked CHUNK_SIZE (result_content result)) in Hall, Hsizes.
    cbn [app] in Hall.
    rewrite Hsent. split; [| split; [| split]].
    + destruct (writable request); [now apply chunks_within_firstn | assumption].
    + destruct (writable request) as [k|].
      * exists (concat (skipn k (iter_chunked CHUNK_SIZE (result_content result)))).
        now rewrite <- concat_app, firstn_skipn.
      * exists []. now rewrite app_nil_r.
    + intros body Hbody.
      assert (full_but_last CHUNK_SIZE (iter_chunked CHUNK_SIZE (result_content result))).
      { unfold iter_chunked. rewrite Hbody. now apply iter_chunked_whole. }
      destruct (writable request); [now apply full_but_last_firstn | assumption].
    + intros Hend Hw. split; [now apply Hdone | now rewrite Hw].
Qed.

Lemma trace_bind {A B} (m : M A) (f : A -> M B) :
  trace (bind m f) =
  (trace m ++ match outcome m with inr a => trace (f a) | inl _ => [] end)%list.
Proof.
  destruct m as [t [e|a]]; cbn.
  - now rewrite app_nil_r.
  - now destruct (f a).
Qed.

(** Delivering the response makes no further request to the backend. *)
Lemma respond_no_backend_request (request : Request) (result : ClientResponse)
    (call : ClientCall) :
  ~ In (BackendRequest call) (trace (respond request result)).
Proof.
  unfold respond, relay_body. rewrite write_chunks_run.
  set (sent := match writable request with
               | Some k => firstn k (iter_chunked CHUNK_SIZE (result_content result))
               | None => iter_chunked CHUNK_SIZE (result_content result)
               end). clearbody sent.
  assert (Hwrites : ~ In (BackendRequest call) (map Write sent)).
  { intros Hin. apply in_map_iff in Hin. destruct Hin as [c [Hc _]]. discriminate. }
  destruct (simple_request result) as [e|[|]]; cbn.
  - tauto.
  - destruct (read_all (result_content result)); cbn; intros [H|[]]; discriminate.
  - destruct (writable request) as [k|];
      [destruct (length (iter_chunked CHUNK_SIZE (result_content result)) <=? k)%nat |];
      destruct (ending (result_content result)) as [e|]; try destruct e;
      cbn; rewrite ?app_nil_r; intros [H|H]; try discriminate;
      repeat (apply in_app_or in H; destruct H as [H|H]);
      try (apply Hwrites; assumption);
      try (destruct H as [H|[]]; discriminate);
      try (destruct H).
Qed.

Lemma bind_ret {A B} (a : A) (f : A -> M B) : bind (ret a) f = f a.
Proof. unfold bind, ret. now destruct (f a). Qed.

Lemma bind_lift {A B} (r : Exn + A) (f : A -> M B) :
  bind (lift r) f = match r with inl e => ([], inl e) | inr a => f a end.
Proof. unfold bind, lift. destruct r as [e|a]; [reflexivity | now destruct (f a)]. Qed.

Lemma bind_emit {B} (ev : Event) (f : unit -> M B) :
  bind (emit ev) f = (ev :: trace (f tt), outcome (f tt)).
Proof. unfold bind, emit. now destruct (f tt). Qed.

Lemma bind_raised {A B} (t : list Event) (e : Exn) (f : A -> M B) :
  bind (t, inl e) f = (t, inl e).
Proof. reflexivity. Qed.

Lemma bind_done {A B} (t : list Event) (a : A) (f : A -> M B) :
  bind (t, inr a) f = ((t ++ trace (f a))%list, outcome (f a)).
Proof. unfold bind. now destruct (f a). Qed.

Section ProxyEngine.

Variables HEADER_TOKEN HEADER_TOKEN_OLD : string.
Variable ip_address : string -> option string.

(** C6: the body of the request made to the backend is the live content of
    the client request exactly when the method is POST and the add-on is
    marked for streaming; in every other case it is a buffer holding the
    whole client body, read before the request is made. *)
Theorem request_body_forwarding (self : APIIngress) (request : Request) (addon : Addon)
    (path : option string) (call : ClientCall) :
  In (BackendRequest call)
     (trace (_handle_request HEADER_TOKEN HEADER_TOKEN_OLD ip_address self request addon path)) ->
  (call_data call = LiveStream (content request) <->
   method request = "POST" /\ ingress_stream addon = true) /\
  (~ (method request = "POST" /\ ingress_stream addon = true) ->
   call_data call = Buffered (concat (arrivals (content request))) /\
   exists after,
     trace (_handle_request HEADER_TOKEN HEADER_TOKEN_OLD ip_address self request addon path) =
     ReadRequest :: BackendRequest call :: after).
Proof.
  unfold _handle_request, request_data, read_all.
  destruct (_init_header HEADER_TOKEN HEADER_TOKEN_OLD ip_address request addon)
    as [e|source_header]; rewrite bind_lift; [intros [] |].
  assert (Hlater : forall c : ClientCall,
             ~ In (BackendRequest call)
                  (trace (bind (lift (sys_websession_request self c)) (respond request)))).
  { intros c. rewrite bind_lift.
    destruct (sys_websession_request self c) as [e|result]; [intros [] |].
    apply respond_no_backend_request. }
  destruct ((method request =? "POST") && ingress_stream addon) eqn:Hmode.
  - apply andb_true_iff in Hmode. destruct Hmode as [Hpost Hstream].
    apply String.eqb_eq in Hpost.
    rewrite bind_ret, bind_emit. cbn [trace fst].
    intros [Hcall | Hin]; [| exfalso; eapply Hlater; exact Hin].
    injection Hcall as <-. cbn. split; [tauto | intros Hnot; tauto].
  - assert (Hnot : ~ (method request = "POST" /\ ingress_stream addon = true)).
    { intros [Hpost Hstream]. apply String.eqb_eq in Hpost.
      rewrite Hpost, Hstream in Hmode. discriminate. }
    rewrite bind_emit, bind_lift.
    destruct (ending (content request)) as [e|].
    + cbn. intros [H | []]. discriminate.
    + cbn [trace outcome ret fst snd]. rewrite bind_done, bind_emit.
      cbn [trace fst app].
      intros [H | [Hcall | Hin]];
        [discriminate | | exfalso; eapply Hlater; exact Hin].
      injection Hcall as <-. cbn [call_data]. split; [split; [discriminate | tauto] |].
      intros _. split; [reflexivity |]. eexists. reflexivity.
Qed.

End ProxyEngine.

(** ** Properties of the WebSocket forwarding loop *)

Section ForwardProperties.

Variable Conn : Type.
Variable closed : Conn -> bool.
Variable close_code : Conn -> option Z.
Variable perform : WSCall -> Conn -> Conn * option Exn.
Variable meanwhile : Conn -> Conn.

Lemma data_calls_app (a b : list WSCall) :
  data_calls (a ++ b) = (data_calls a ++ data_calls b)%list.
Proof. apply filter_app. Qed.

Lemma call_on_spec (ws_to : Conn) (c : WSCall) :
  snd (fst (call_on perform ws_to c)) = [c] /\
  snd (call_on perform ws_to c) = snd (perform c ws_to).
Proof. unfold call_on. now destruct (perform c ws_to). Qed.

(** One message makes at most one call: its translation for a data frame,
    a close, or nothing, for any other message. *)
Lemma forward_msg_calls (msg : WSMessage) (ws_to : Conn) :
  snd (fst (forward_msg closed close_code perform msg ws_to)) =
    (if is_data_frame msg then [forwarded_as msg]
     else if closed ws_to then [SendClose (close_code ws_to) (extra msg)] else []) /\
  ((forall c ws, snd (perform c ws) = None) ->
   snd (forward_msg closed close_code perform msg ws_to) = None).
Proof.
  unfold forward_msg, is_data_frame, forwarded_as.
  destruct (msg_type msg); try destruct (closed ws_to);
    first [ split; [apply call_on_spec |];
            intros never; rewrite (proj2 (call_on_spec _ _)); apply never
          | split; reflexivity ].
Qed.

Lemma forward_loop_in_order (stop : option Exn) (msgs : list WSMessage) :
  forall ws_to : Conn,
    (exists rest,
       map forwarded_as (filter is_data_frame msgs) =
       (data_calls (snd (fst (forward_loop closed close_code perform meanwhile msgs stop ws_to)))
        ++ rest)%list) /\
    ((forall c ws, snd (perform c ws) = None) ->
     data_calls (snd (fst (forward_loop closed close_code perform meanwhile msgs stop ws_to))) =
     map forwarded_as (filter is_data_frame msgs)).
Proof.
  induction msgs as [|msg rest IH]; intros ws_to.
  - cbn. split; [now exists [] | reflexivity].
  - cbn [forward_loop].
    destruct (forward_msg_calls msg (meanwhile ws_to)) as [Hmade Hfine].
    destruct (forward_msg closed close_code perform msg (meanwhile ws_to))
      as [[ws1 made] err] eqn:Hstep.
    cbn [fst snd] in Hmade, Hfine.
    assert (Hdata : data_calls made = if is_data_frame msg then [forwarded_as msg] else []).
    { rewrite Hmade. unfold forwarded_as, is_data_frame.
      destruct (msg_type msg); try destruct (closed (meanwhile ws_to)); reflexivity. }
    destruct (IH ws1) as [[more Hmore] Hall].
    destruct err as [e|].
    + cbn [fst snd]. rewrite Hdata. split.
      * cbn [filter]. destruct (is_data_frame msg); cbn; eauto.
      * intros Hnever. specialize (Hfine Hnever). discriminate.
    + destruct (forward_loop closed close_code perform meanwhile rest stop ws1)
        as [[ws2 made'] err'].
      cbn [fst snd] in *. rewrite data_calls_app, Hdata. split.
      * exists more. cbn [filter].
        destruct (is_data_frame msg); cbn; now rewrite Hmore.
      * intros Hnever. rewrite (Hall Hnever). cbn [filter].
        now destruct (is_data_frame msg).
Qed.

Lemma websocket_forward_calls (msgs : list WSMessage) (stop : option Exn) (ws_to : Conn) :
  calls (_websocket_forward closed close_code perform meanwhile msgs stop ws_to) =
  snd (fst (forward_loop closed close_code perform meanwhile msgs stop ws_to)).
Proof.
  unfold _websocket_forward.
  destruct (forward_loop closed close_code perform meanwhile msgs stop ws_to)
    as [[ws_end made] [e|]]; [destruct e |]; reflexivity.
Qed.

(** C7: in one direction of the relay, the calls made on the destination for
    text, binary, ping and pong frames are the translations of those frames,
    payload for payload and in the order the source yields them: always a
    prefix of that sequence, and all of it when no call on the destination
    raises. *)
Theorem websocket_forward_in_order (msgs : list WSMessage) (stop : option Exn) (ws_to : Conn) :
  (exists rest,
     map forwarded_as (filter is_data_frame msgs) =
     (data_calls (calls (_websocket_forward closed close_code perform meanwhile msgs stop ws_to))
      ++ rest)%list) /\
  ((forall c ws, snd (perform c ws) = None) ->
   data_calls (calls (_websocket_forward closed close_code perform meanwhile msgs stop ws_to)) =
   map forwarded_as (filter is_data_frame msgs)).
Proof.
  rewrite websocket_forward_calls. apply forward_loop_in_order.
Qed.




End ForwardProperties.

(** ** The properties at concrete requests *)

(** C1: with a prior X-Forwarded-For value the chain is that value, a comma
    and the peer address; without one the code prints the missing value as
    the text None in front of the peer address, where the specification
    asks for the peer address alone. *)
Theorem forwarded_for_chain_values :
  _init_header Sample.HEADER_TOKEN Sample.HEADER_TOKEN_OLD ipv4_address
    (Sample.request "GET" [("X-Forwarded-For", "1.2.3.4")] [] "abc") Sample.addon
  = inr [("X-Forwarded-For", "1.2.3.4, 10.0.0.5")] /\
  _init_header Sample.HEADER_TOKEN Sample.HEADER_TOKEN_OLD ipv4_address
    (Sample.request "GET" [] [] "abc") Sample.addon
  = inr [("X-Forwarded-For", "None, 10.0.0.5")] /\
  "None, 10.0.0.5" <> "10.0.0.5".
Proof.
  split; [reflexivity | split; [reflexivity | discriminate]].
Qed.

(** C4: the filter misses names in another letter case.  A Content-Length
    header and a token header spelled in lower case pass it, and the
    outbound header set has a header of either name, which the
    specification forbids. *)
Lemma respelled_names_are_forwarded :
  exists out,
    _init_header Sample.HEADER_TOKEN Sample.HEADER_TOKEN_OLD ipv4_address
      (Sample.request "POST"
         [("content-length", "5"); ("x-supervisor-token", "secret")] [] "abc")
      Sample.addon = inr out /\
    out = [("content-length", "5"); ("x-supervisor-token", "secret");
           ("X-Forwarded-For", "None, 10.0.0.5")] /\
    CIMultiDict.contains hdrs.CONTENT_LENGTH out = true /\
    CIMultiDict.contains Sample.HEADER_TOKEN out = true.
Proof.
  eexists. split; [reflexivity |]. repeat split.
Qed.

Lemma init_header_filters_spelled_names_witness :
  ~ In "Content-Length"
      (Dict.keys [("Accept", "*/*"); ("X-Forwarded-For", "None, 10.0.0.5")]) /\
  In "Accept" (Dict.keys [("Accept", "*/*"); ("X-Forwarded-For", "None, 10.0.0.5")]).
Proof.
  pose proof (@init_header_filters_spelled_names
                Sample.HEADER_TOKEN Sample.HEADER_TOKEN_OLD ipv4_address
                (Sample.request "GET"
                   [("Content-Length", "5"); ("Accept", "*/*")] [] "abc")
                Sample.addon
                [("Accept", "*/*"); ("X-Forwarded-For", "None, 10.0.0.5")]
                ltac:(discriminate) ltac:(discriminate) eq_refl) as [Hout Hin].
  split.
  - apply Hout. simpl. auto.
  - apply (Hin "Accept" "*/*"); simpl; [auto |].
    intros H. repeat (destruct H as [H | H]; [discriminate |]). exact H.
Defined.

(** C9 fails as stated: of two inbound values under one spelling of a name,
    outside the filtered names, the outbound header set holds the second
    only. *)
Lemma duplicate_values_are_dropped :
  exists out,
    _init_header Sample.HEADER_TOKEN Sample.HEADER_TOKEN_OLD ipv4_address
      (Sample.request "GET"
         [("Accept", "text/html"); ("Accept", "application/json")] [] "abc")
      Sample.addon = inr out /\
    name_in "Accept" (request_filter Sample.HEADER_TOKEN Sample.HEADER_TOKEN_OLD) = false /\
    out = [("Accept", "application/json"); ("X-Forwarded-For", "None, 10.0.0.5")] /\
    ~ In "text/html" (Dict.values out).
Proof.
  eexists. split; [reflexivity |]. repeat split.
  simpl. intros [H | [H | []]]; discriminate.
Qed.

Lemma init_header_keeps_last_value_witness :
  Dict.get "Accept"
    [("Accept", "application/json"); ("X-Forwarded-For", "None, 10.0.0.5")]
  = Some "application/json".
Proof.
  refine (proj2 (@init_header_keeps_last_value
                   Sample.HEADER_TOKEN Sample.HEADER_TOKEN_OLD ipv4_address
                   (Sample.request "GET"
                      [("Accept", "text/html"); ("Accept", "application/json")] [] "abc")
                   Sample.addon
                   [("Accept", "application/json"); ("X-Forwarded-For", "None, 10.0.0.5")]
                   "Accept" eq_refl _ _)).
  - simpl. intros H. repeat (destruct H as [H | H]; [discriminate |]). exact H.
  - discriminate.
Defined.

(** Two spellings of one name are two entries: each keeps its value. *)
Example respelled_duplicates_are_both_forwarded :
  _init_header Sample.HEADER_TOKEN Sample.HEADER_TOKEN_OLD ipv4_address
    (Sample.request "GET" [("X-Custom", "one"); ("x-custom", "two")] [] "abc")
    Sample.addon
  = inr [("X-Custom", "one"); ("x-custom", "two");
         ("X-Forwarded-For", "None, 10.0.0.5")] /\
  last_value "X-Custom" [("X-Custom", "one"); ("x-custom", "two")] = Some "one" /\
  last_value "x-custom" [("X-Custom", "one"); ("x-custom", "two")] = Some "two".
Proof.
  split; [reflexivity | split; reflexivity].
Qed.

(** The constructor of the buffered response refuses a Content-Type header
    that passed the filter of the response direction in another spelling. *)
Example respelled_content_type_is_refused :
  respond (Sample.request "GET" [] [] "abc")
    (Sample.result [("Content-Length", "5"); ("content-type", "text/html")] [Sample.body])
  = ([ReadResult], inl ValueError).
Proof.
  reflexivity.
Qed.

(** The sample backend is reached by a request that passes both gates. *)
Example handler_reaches_backend :
  existsb is_backend_call
    (trace (handler Sample.HEADER_TOKEN Sample.HEADER_TOKEN_OLD Sample.COOKIE_INGRESS
              ipv4_address Sample.self
              (Sample.request "GET" [] [("ingress_session", "s3ss10n")] "abc"))) = true /\
  outcome (handler Sample.HEADER_TOKEN Sample.HEADER_TOKEN_OLD Sample.COOKIE_INGRESS
             ipv4_address Sample.self
             (Sample.request "GET" [] [("ingress_session", "s3ss10n")] "abc"))
  = inr (Response [] 200 "text/plain" Sample.body).
Proof.
  split; reflexivity.
Qed.

Lemma handler_rejects_invalid_session_witness :
  outcome (handler Sample.HEADER_TOKEN Sample.HEADER_TOKEN_OLD Sample.COOKIE_INGRESS
             ipv4_address Sample.self (Sample.request "GET" [] [] "abc"))
  = inl HTTPUnauthorized /\
  outcome (handler Sample.HEADER_TOKEN Sample.HEADER_TOKEN_OLD Sample.COOKIE_INGRESS
             ipv4_address Sample.self
             (Sample.request "GET" [] [("ingress_session", "stale")] "abc"))
  = inl HTTPUnauthorized.
Proof.
  split.
  - rewrite (proj1 (@handler_rejects_invalid_session
                      Sample.HEADER_TOKEN Sample.HEADER_TOKEN_OLD Sample.COOKIE_INGRESS
                      ipv4_address Sample.self (Sample.request "GET" [] [] "abc")
                      (or_introl eq_refl))).
    reflexivity.
  - rewrite (proj1 (@handler_rejects_invalid_session
                      Sample.HEADER_TOKEN Sample.HEADER_TOKEN_OLD Sample.COOKIE_INGRESS
                      ipv4_address Sample.self
                      (Sample.request "GET" [] [("ingress_session", "stale")] "abc")
                      (or_intror (ex_intro _ "stale" (conj eq_refl eq_refl))))).
    reflexivity.
Defined.

Lemma handler_unknown_token_unavailable_witness :
  outcome (handler Sample.HEADER_TOKEN Sample.HEADER_TOKEN_OLD Sample.COOKIE_INGRESS
             ipv4_address Sample.self
             (Sample.request "GET" [] [("ingress_session", "s3ss10n")] "nope"))
  = inl HTTPServiceUnavailable.
Proof.
  rewrite (proj1 (@handler_unknown_token_unavailable
                    Sample.HEADER_TOKEN Sample.HEADER_TOKEN_OLD Sample.COOKIE_INGRESS
                    ipv4_address Sample.self
                    (Sample.request "GET" [] [("ingress_session", "s3ss10n")] "nope")
                    eq_refl eq_refl)).
  reflexivity.
Defined.

(** C5 fails as stated: a body that reaches the proxy in two pieces of five
    bytes is relayed as it arrives, in two chunks of five bytes, not in
    chunks of 4096 bytes. *)
Lemma chunks_follow_arrivals :
  written (trace (respond (Sample.request "GET" [] [] "abc")
                    (Sample.result [] [Sample.body; Sample.body])))
  = [Sample.body; Sample.body] /\
  ~ full_but_last 4096 [Sample.body; Sample.body].
Proof.
  split; [reflexivity |].
  intros Hfull. specialize (Hfull 0%nat). cbn [length nth Sample.body] in Hfull.
  assert (H : 5%nat = 4096%nat) by (apply Hfull; lia).
  discriminate H.
Qed.

Lemma delivery_mode_witness :
  respond (Sample.request "GET" [] [] "abc")
    (Sample.result [("Content-Length", "1000")] [Sample.body])
  = ([ReadResult], inr (Response [] 200 "text/plain" Sample.body)) /\
  concat (written (trace (respond (Sample.request "GET" [] [] "abc")
                            (Sample.result [("content-length", "5000000")]
                               [Sample.body; Sample.body]))))
  = (Sample.body ++ Sample.body)%list /\
  concat (written (trace (respond (Sample.request "GET" [] [] "abc")
                            (Sample.result [] [Sample.body]))))
  = Sample.body.
Proof.
  split; [| split].
  - apply (proj1 (@delivery_mode (Sample.request "GET" [] [] "abc")
                    (Sample.result [("Content-Length", "1000")] [Sample.body])
                    (Some 1000%Z) eq_refl) 1000%Z eq_refl); reflexivity.
  - apply (proj2 (@delivery_mode (Sample.request "GET" [] [] "abc")
                    (Sample.result [("content-length", "5000000")]
                       [Sample.body; Sample.body])
                    (Some 5000000%Z) eq_refl)).
    + right. exists 5000000%Z. split; [reflexivity | discriminate].
    + reflexivity.
    + reflexivity.
  - apply (proj2 (@delivery_mode (Sample.request "GET" [] [] "abc")
                    (Sample.result [] [Sample.body]) None eq_refl)).
    + left. reflexivity.
    + reflexivity.
    + reflexivity.
Defined.

Lemma request_body_forwarding_witness :
  (call_data Sample.live_call = LiveStream (content Sample.post_request) <->
   method Sample.post_request = "POST" /\ ingress_stream Sample.streaming_addon = true) /\
  call_data Sample.buffered_call = Buffered Sample.body.
Proof.
  split.
  - apply (@request_body_forwarding
             Sample.HEADER_TOKEN Sample.HEADER_TOKEN_OLD ipv4_address Sample.self
             Sample.post_request Sample.streaming_addon (Some "index.html")
             Sample.live_call).
    left. reflexivity.
  - apply (@request_body_forwarding
             Sample.HEADER_TOKEN Sample.HEADER_TOKEN_OLD ipv4_address Sample.self
             Sample.post_request Sample.addon (Some "index.html")
             Sample.buffered_call).
    + right. left. reflexivity.
    + intros [_ Hstream]. discriminate.
Defined.

Lemma websocket_forward_in_order_witness :
  data_calls
    (calls (_websocket_forward Sample.is_closed Sample.code Sample.perform Sample.meanwhile
              [Sample.text_msg "a"; Sample.ping_msg; Sample.binary_msg Sample.body;
               Sample.pong_msg; Sample.text_msg "b"]
              None {| Sample.is_closed := false; Sample.code := None |}))
  = [SendStr (Text "a"); SendPing; SendBytes (Binary Sample.body); SendPong;
     SendStr (Text "b")].
Proof.
  apply (proj2 (@websocket_forward_in_order
                  Sample.Conn Sample.is_closed Sample.code Sample.perform Sample.meanwhile
                  [Sample.text_msg "a"; Sample.ping_msg; Sample.binary_msg Sample.body;
                   Sample.pong_msg; Sample.text_msg "b"]
                  None {| Sample.is_closed := false; Sample.code := None |})).
  intros c ws. reflexivity.
Defined.



(** * Further properties of the ingress view *)

(** ** Reference notions *)

(** Two header entries that differ in letter case only. *)
Definition same_up_to_case (a b : string * string) : Prop :=
  Py.lower (fst a) = Py.lower (fst b) /\ Py.lower (snd a) = Py.lower (snd b).

(** The events of the HTTP proxy engine, and those of the WebSocket relay. *)
Definition is_http_event (ev : Event) : bool :=
  match ev with
  | ReadRequest | BackendRequest _ | ReadResult | Prepare | Write _ => true
  | _ => false
  end.

Definition is_ws_event (ev : Event) : bool :=
  match ev with
  | WsPrepare _ | WsConnect _ _ _ | WsRelay => true
  | _ => false
  end.

(** The session check and the registry lookup. *)
Definition is_session_check (ev : Event) : bool :=
  match ev with ValidateSession _ => true | _ => false end.

Definition is_lookup (ev : Event) : bool :=
  match ev with IngressGet _ => true | _ => false end.

(** An attempt to connect to a backend. *)
Definition is_connect (ev : Event) : bool :=
  match ev with
  | BackendRequest _ | WsConnect _ _ _ => true
  | _ => false
  end.

(** The events of delivering a response to the client. *)
Definition is_delivery_event (ev : Event) : bool :=
  match ev with
  | ReadResult | Prepare | Write _ | LogError _ => true
  | _ => false
  end.

(** The request [_handle_request] makes on the backend. *)
Definition backend_call (request : Request) (addon : Addon) (path : option string)
    (source_header : Dict.t) (data : Body) : ClientCall :=
  {| call_method := method request; call_url := _create_url addon path;
     call_headers := source_header; call_params := query request;
     call_data := data |}.

(** The sub-protocols a request asks for, and the URL its WebSocket is
    connected to, as [_handle_websocket] computes them. *)
Definition requested_protocols (request : Request) : list string :=
  if CIMultiDict.contains hdrs.SEC_WEBSOCKET_PROTOCOL (headers request)
  then map Py.strip
         (Py.split ","
            (CIMultiDict.get_default hdrs.SEC_WEBSOCKET_PROTOCOL (headers request) ""))
  else [].

Definition websocket_url (request : Request) (addon : Addon) (path : option string) : string :=
  if query_string request =? "" then _create_url addon path
  else _create_url addon path ++ "?" ++ query_string request.

(** The branch [handler] takes once the add-on is known. *)
Definition branch (HEADER_TOKEN HEADER_TOKEN_OLD : string)
    (ip_address : string -> option string) (self : APIIngress) (request : Request)
    (addon : Addon) : M Reply :=
  if _is_websocket request
  then _handle_websocket HEADER_TOKEN HEADER_TOKEN_OLD ip_address self request addon
         (Dict.get "path" (match_info request))
  else _handle_request HEADER_TOKEN HEADER_TOKEN_OLD ip_address self request addon
         (Dict.get "path" (match_info request)).

(** The chunks a streamed response gets to write. *)
Definition chunks_sent (request : Request) (result : ClientResponse) : list bytes :=
  match writable request with
  | None => iter_chunked CHUNK_SIZE (result_content result)
  | Some k => firstn k (iter_chunked CHUNK_SIZE (result_content result))
  end.

(** Whether the relay of the body ends in an exception, and in which. *)
Definition relay_failure (request : Request) (result : ClientResponse) : option Exn :=
  match writable request with
  | Some k =>
      if (length (iter_chunked CHUNK_SIZE (result_content result)) <=? k)%nat
      then ending (result_content result)
      else Some ConnectionResetError
  | None => ending (result_content result)
  end.

(** [sep.join(pieces)]. *)
Fixpoint join (sep : string) (pieces : list string) : string :=
  match pieces with
  | [] => ""
  | piece :: rest =>
      match rest with
      | [] => piece
      | _ => piece ++ sep ++ join sep rest
      end
  end.

(** How often a character occurs in a text. *)
Fixpoint count_char (c : ascii) (s : string) : nat :=
  match s with
  | EmptyString => 0
  | String d r => if Ascii.eqb d c then S (count_char c r) else count_char c r
  end.

(** ** The panel listing *)

(** A Python [dict] keyed by text with values of any kind. *)
Fixpoint assign {V : Type} (key : string) (value : V) (d : list (string * V))
    : list (string * V) :=
  match d with
  | [] => [(key, value)]
  | (k, v) :: r => if k =? key then (k, value) :: r else (k, v) :: assign key value r
  end.

Fixpoint lookup {V : Type} (key : string) (d : list (string * V)) : option V :=
  match d with
  | [] => None
  | (k, v) :: r => if k =? key then Some v else lookup key r
  end.

Section Panels.

(** The attribute names of [const.py], the values an add-on attribute may
    take, and the attributes of the add-on class that [panels] reads. *)
Variables ATTR_TITLE ATTR_ICON ATTR_ADMIN ATTR_ENABLE ATTR_PANELS : string.
Variable Value : Type.
Variable slug : Addon -> string.
Variables panel_title panel_icon panel_admin ingress_panel : Addon -> Value.

(** The dict display [{ATTR_TITLE: ..., ATTR_ICON: ..., ATTR_ADMIN: ..., ATTR_ENABLE: ...}]. *)
Definition panel_entry (addon : Addon) : list (string * Value) :=
  assign ATTR_ENABLE (ingress_panel addon)
    (assign ATTR_ADMIN (panel_admin addon)
       (assign ATTR_ICON (panel_icon addon)
          (assign ATTR_TITLE (panel_title addon) []))).

(** [for addon in addons: listing[addon.slug] = {...}]. *)
Fixpoint collect_panels (addons : list Addon)
    (listing : list (string * list (string * Value)))
    : list (string * list (string * Value)) :=
  match addons with
  | [] => listing
  | addon :: rest => collect_panels rest (assign (slug addon) (panel_entry addon) listing)
  end.

(** The body of [panels], over the add-ons of [self.sys_ingress.addons];
    the decorator [api_process] that wraps the result belongs to
    [api/utils.py]. *)
Definition panels (addons : list Addon)
    : list (string * list (string * list (string * Value))) :=
  [(ATTR_PANELS, collect_panels addons [])].

(** The last of the add-ons with a given slug. *)
Fixpoint last_with_slug (s : string) (addons : list Addon) : option Addon :=
  match addons with
  | [] => None
  | addon :: rest =>
      match last_with_slug s rest with
      | Some later => Some later
      | None => if slug addon =? s then Some addon else None
      end
  end.

End Panels.

(** ** Further concrete collaborators *)

Module Case.

(** An ingress view whose backend cannot be reached. *)
Definition unreachable : APIIngress :=
  {| sessions_valid := sessions_valid Sample.self;
     sys_ingress_get := sys_ingress_get Sample.self;
     sys_websession_request := fun _ => inl ClientError;
     sys_websession_ws_connect := fun _ _ _ => Some ClientError |}.

Definition session : Dict.t := [("ingress_session", "s3ss10n")].

(** An authorized request whose transport gives no peer name. *)
Definition no_peer_request : Request :=
  {| method := "GET"; headers := []; cookies := session;
     match_info := [("token", "abc"); ("path", "index.html")];
     query_string := ""; query := [];
     content := {| arrivals := []; ending := None |};
     peername := None; writable := None |}.

(** An authorized upgrade request with a query string. *)
Definition upgrade_request : Request :=
  {| method := "GET";
     headers := [("Connection", "Upgrade"); ("Upgrade", "websocket");
                 ("Sec-WebSocket-Version", "13");
                 ("Sec-WebSocket-Key", "dGhlIHNhbXBsZSBub25jZQ==");
                 ("Sec-WebSocket-Protocol", "mqtt, wamp")];
     cookies := session;
     match_info := [("token", "abc"); ("path", "ws")];
     query_string := "v=1"; query := [("v", "1")];
     content := {| arrivals := []; ending := None |};
     peername := Some ("10.0.0.5", 51234%N); writable := None |}.


Definition get_call : ClientCall :=
  {| call_method := "GET"; call_url := "http://172.30.33.2:8099/index.html";
     call_headers := [("X-Forwarded-For", "None, 10.0.0.5")]; call_params := [];
     call_data := Buffered Sample.body |}.

End Case.

(** ** The response direction of the header transform *)

(** X1: the headers handed to the client hold one entry per spelled name,
    none for a name spelled as Transfer-Encoding, Content-Length,
    Content-Type or Content-Encoding, and for every other name the last of
    the values the backend sent under it. *)
Theorem response_header_keeps_last_value (response : ClientResponse) (name : string) :
  NoDup (Dict.keys (_response_header response)) /\
  Dict.get name (_response_header response) =
    if name_in name response_filter then None
    else last_value name (result_headers response).
Proof.
  unfold _response_header, CIMultiDict.items. split.
  - apply copy_headers_nodup. constructor.
  - rewrite copy_headers_get. cbn [Dict.get Dict.empty].
    destruct (name_in name response_filter); [reflexivity |].
    now destruct (last_value name (result_headers response)).
Qed.

(** ** Upgrade detection *)

Lemma get_default_up_to_case (key : string) (hs hs' : CIMultiDict.t) :
  Forall2 same_up_to_case hs hs' ->
  Py.lower (CIMultiDict.get_default key hs "") =
  Py.lower (CIMultiDict.get_default key hs' "").
Proof.
  unfold CIMultiDict.get_default.
  induction 1 as [|[k v] [k' v'] hs hs' [Hname Hvalue] _ IH]; [reflexivity |].
  cbn [CIMultiDict.get]. unfold CIMultiDict.same_name.
  cbn [fst snd] in Hname, Hvalue. rewrite Hname.
  destruct (Py.lower k' =? Py.lower key); assumption.
Qed.

(** X2: whether a request is a WebSocket upgrade does not depend on the
    letter case of its header names and values. *)
Theorem is_websocket_ignores_case (request request' : Request) :
  Forall2 same_up_to_case (headers request) (headers request') ->
  _is_websocket request = _is_websocket request'.
Proof.
  intros Hsame. unfold _is_websocket.
  rewrite (get_default_up_to_case hdrs.CONNECTION Hsame).
  now rewrite (get_default_up_to_case hdrs.UPGRADE Hsame).
Qed.

Lemma is_websocket_ignores_case_witness :
  _is_websocket (Sample.request "GET"
                   [("connection", "UPGRADE"); ("upgrade", "WebSocket")] [] "abc") =
  _is_websocket (Sample.request "GET"
                   [("Connection", "Upgrade"); ("Upgrade", "websocket")] [] "abc").
Proof.
  apply is_websocket_ignores_case. cbn [headers Sample.request].
  repeat constructor.
Defined.

(** Without either header a request is no upgrade. *)
Lemma is_websocket_needs_headers (request : Request) :
  CIMultiDict.get hdrs.CONNECTION (headers request) = None \/
  CIMultiDict.get hdrs.UPGRADE (headers request) = None ->
  _is_websocket request = false.
Proof.
  unfold _is_websocket, CIMultiDict.get_default.
  intros [-> | ->]; [reflexivity |].
  apply andb_false_r.
Qed.

(** ** Shapes of the runs *)

Lemma try_except_run {A} (m : M A) (caught : Exn -> bool) (h : Exn -> M A) :
  try_except m caught h =
  match outcome m with
  | inl e => if caught e then ((trace m ++ trace (h e))%list, outcome (h e)) else m
  | inr _ => m
  end.
Proof.
  destruct m as [t [e|a]]; cbn; [| reflexivity].
  destruct (caught e); [| reflexivity]. now destruct (h e).
Qed.

Lemma request_data_run (request : Request) (addon : Addon) :
  request_data request addon =
  if (method request =? "POST") && ingress_stream addon
  then ([], inr (LiveStream (content request)))
  else ([ReadRequest],
        match read_all (content request) with
        | inl e => inl e
        | inr data => inr (Buffered data)
        end).
Proof.
  unfold request_data.
  destruct ((method request =? "POST") && ingress_stream addon); [reflexivity |].
  rewrite bind_emit, bind_lift.
  now destruct (read_all (content request)).
Qed.

Lemma respond_streamed_run (request : Request) (result : ClientResponse) :
  simple_request result = inr false ->
  respond request result =
  match relay_failure request result with
  | None =>
      (Prepare :: map Write (chunks_sent request result),
       inr (StreamResponse (status result) (_response_header result) (content_type result)))
  | Some e =>
      if stream_errors e
      then ((Prepare :: map Write (chunks_sent request result)
             ++ [LogError "Stream error with %s: %s"])%list,
            inr (StreamResponse (status result) (_response_header result)
                   (content_type result)))
      else (Prepare :: map Write (chunks_sent request result), inl e)
  end.
Proof.
  intros Hsimple. unfold respond, relay_body, relay_failure, chunks_sent.
  rewrite Hsimple, write_chunks_run.
  set (chunks := iter_chunked CHUNK_SIZE (result_content result)). clearbody chunks.
  destruct (writable request) as [k|];
    [destruct (length chunks <=? k)%nat |];
    destruct (ending (result_content result)) as [e|]; try destruct e;
    cbn; rewrite ?app_nil_r; reflexivity.
Qed.

Lemma respond_buffered_run (request : Request) (result : ClientResponse) :
  simple_request result = inr true ->
  respond request result =
  ([ReadResult],
   match read_all (result_content result) with
   | inl e => inl e
   | inr body => web.Response (_response_header result) (status result)
                   (content_type result) body
   end).
Proof.
  intros Hsimple. unfold respond. rewrite Hsimple. cbn.
  now destruct (read_all (result_content result)).
Qed.

Lemma respond_events (request : Request) (result : ClientResponse) :
  Forall (fun ev => is_delivery_event ev = true) (trace (respond request result)).
Proof.
  destruct (simple_request result) as [e|[|]] eqn:Hsimple.
  - unfold respond. rewrite Hsimple. constructor.
  - rewrite (@respond_buffered_run request result Hsimple). repeat constructor.
  - rewrite (@respond_streamed_run request result Hsimple).
    assert (Hwrites : Forall (fun ev => is_delivery_event ev = true)
                        (map Write (chunks_sent request result))).
    { apply Forall_forall. intros ev Hin. apply in_map_iff in Hin.
      destruct Hin as [c [<- _]]. reflexivity. }
    destruct (relay_failure request result) as [e|]; [destruct (stream_errors e) |];
      cbn [trace fst]; constructor; try reflexivity; try assumption.
    apply Forall_app. split; [assumption | repeat constructor].
Qed.

Lemma filter_none {A} (p : A -> bool) (l : list A) :
  Forall (fun x => p x = false) l -> filter p l = [].
Proof.
  induction 1 as [|x l Hx _ IH]; [reflexivity |]. cbn. now rewrite Hx.
Qed.

Lemma respond_filter (p : Event -> bool) (request : Request) (result : ClientResponse) :
  (forall ev, is_delivery_event ev = true -> p ev = false) ->
  filter p (trace (respond request result)) = [].
Proof.
  intros Hp. apply filter_none.
  eapply Forall_impl; [| apply respond_events]. exact Hp.
Qed.

Section Runs.

Variables HEADER_TOKEN HEADER_TOKEN_OLD COOKIE_INGRESS : string.
Variable ip_address : string -> option string.

Lemma handle_request_run (self : APIIngress) (request : Request) (addon : Addon)
    (path : option string) :
  _handle_request HEADER_TOKEN HEADER_TOKEN_OLD ip_address self request addon path =
  match _init_header HEADER_TOKEN HEADER_TOKEN_OLD ip_address request addon with
  | inl e => ([], inl e)
  | inr source_header =>
      match request_data request addon with
      | (t, inl e) => (t, inl e)
      | (t, inr data) =>
          match sys_websession_request self
                  (backend_call request addon path source_header data) with
          | inl e =>
              ((t ++ [BackendRequest (backend_call request addon path source_header data)])%list,
               inl e)
          | inr result =>
              ((t ++ BackendRequest (backend_call request addon path source_header data)
                  :: trace (respond request result))%list,
               outcome (respond request result))
          end
      end
  end.
Proof.
  unfold _handle_request, backend_call. rewrite bind_lift.
  destruct (_init_header HEADER_TOKEN HEADER_TOKEN_OLD ip_address request addon)
    as [e|source_header]; [reflexivity |].
  destruct (request_data request addon) as [t [e|data]]; [reflexivity |].
  rewrite bind_done, bind_emit, bind_lift. cbn [trace outcome fst snd].
  now destruct (sys_websession_request self _).
Qed.

Lemma handle_websocket_run (self : APIIngress) (request : Request) (addon : Addon)
    (path : option string) :
  _handle_websocket HEADER_TOKEN HEADER_TOKEN_OLD ip_address self request addon path =
  match _init_header HEADER_TOKEN HEADER_TOKEN_OLD ip_address request addon with
  | inl e => ([WsPrepare (requested_protocols request)], inl e)
  | inr source_header =>
      match sys_websession_ws_connect self (websocket_url request addon path)
              source_header (requested_protocols request) with
      | Some e =>
          ([WsPrepare (requested_protocols request);
            WsConnect (websocket_url request addon path) source_header
              (requested_protocols request)],
           inl e)
      | None =>
          ([WsPrepare (requested_protocols request);
            WsConnect (websocket_url request addon path) source_header
              (requested_protocols request);
            WsRelay],
           inr (WebSocketResponse (requested_protocols request)))
      end
  end.
Proof.
  unfold _handle_websocket, requested_protocols, websocket_url.
  rewrite bind_emit, bind_lift.
  destruct (_init_header HEADER_TOKEN HEADER_TOKEN_OLD ip_address request addon)
    as [e|source_header]; [reflexivity |].
  rewrite bind_emit. cbn [trace outcome fst snd].
  destruct (query_string request =? "");
    now destruct (sys_websession_ws_connect self _ source_header _).
Qed.

Lemma handler_run (self : APIIngress) (request : Request) :
  handler HEADER_TOKEN HEADER_TOKEN_OLD COOKIE_INGRESS ip_address self request =
  if sys_ingress_validate_session self (Dict.get COOKIE_INGRESS (cookies request)) then
    match sys_ingress_get self (Dict.get "token" (match_info request)) with
    | None =>
        ([ValidateSession (Dict.get COOKIE_INGRESS (cookies request));
          IngressGet (Dict.get "token" (match_info request));
          LogWarning "Ingress for %s not available"],
         inl HTTPServiceUnavailable)
    | Some addon =>
        let inner :=
          branch HEADER_TOKEN HEADER_TOKEN_OLD ip_address self request addon in
        match outcome inner with
        | inl e =>
            if is_client_error e
            then (ValidateSession (Dict.get COOKIE_INGRESS (cookies request))
                  :: IngressGet (Dict.get "token" (match_info request))
                  :: (trace inner ++ [LogError "Ingress error: %s"])%list,
                  inl HTTPBadGateway)
            else (ValidateSession (Dict.get COOKIE_INGRESS (cookies request))
                  :: IngressGet (Dict.get "token" (match_info request))
                  :: trace inner,
                  inl e)
        | inr reply =>
            (ValidateSession (Dict.get COOKIE_INGRESS (cookies request))
             :: IngressGet (Dict.get "token" (match_info request))
             :: trace inner,
             inr reply)
        end
    end
  else
    ([ValidateSession (Dict.get COOKIE_INGRESS (cookies request));
      LogWarning "No valid ingress session %s"],
     inl HTTPUnauthorized).
Proof.
  unfold handler, _extract_addon, branch. rewrite bind_emit.
  destruct (sys_ingress_validate_session self (Dict.get COOKIE_INGRESS (cookies request)));
    [| reflexivity].
  cbn [negb]. rewrite bind_ret, bind_emit.
  destruct (sys_ingress_get self (Dict.get "token" (match_info request))) as [addon|];
    [| reflexivity].
  cbn [trace outcome ret fst snd]. rewrite bind_done, try_except_run. cbn zeta.
  set (inner := if _is_websocket request then _ else _).
  destruct inner as [t [e|reply]]; cbn [trace outcome fst snd app]; [| reflexivity].
  destruct (is_client_error e); [| reflexivity].
  rewrite bind_emit. reflexivity.
Qed.

End Runs.

Lemma existsb_none {A} (p : A -> bool) (l : list A) :
  Forall (fun x => p x = false) l -> existsb p l = false.
Proof.
  induction 1 as [|x l Hx _ IH]; [reflexivity |]. cbn. now rewrite Hx.
Qed.

Lemma respond_existsb (p : Event -> bool) (request : Request) (result : ClientResponse) :
  (forall ev, is_delivery_event ev = true -> p ev = false) ->
  existsb p (trace (respond request result)) = false.
Proof.
  intros Hp. apply existsb_none.
  eapply Forall_impl; [| apply respond_events]. exact Hp.
Qed.

Lemma request_data_trace (request : Request) (addon : Addon) :
  trace (request_data request addon) = [] \/
  trace (request_data request addon) = [ReadRequest].
Proof.
  rewrite request_data_run.
  destruct ((method request =? "POST") && ingress_stream addon); auto.
Qed.

(** ** Further properties of the dispatcher *)

Section DispatcherRuns.

Variables HEADER_TOKEN HEADER_TOKEN_OLD COOKIE_INGRESS : string.
Variable ip_address : string -> option string.

Lemma handle_request_existsb (p : Event -> bool) (self : APIIngress) (request : Request)
    (addon : Addon) (path : option string) :
  (forall ev, is_http_event ev || is_delivery_event ev = true -> p ev = false) ->
  existsb p (trace (_handle_request HEADER_TOKEN HEADER_TOKEN_OLD ip_address self request
                      addon path)) = false.
Proof.
  intros Hbranch.
  assert (Hdelivery : forall ev, is_delivery_event ev = true -> p ev = false).
  { intros ev H. apply Hbranch. rewrite H. apply orb_true_r. }
  rewrite handle_request_run.
  destruct (_init_header HEADER_TOKEN HEADER_TOKEN_OLD ip_address request addon)
    as [e|hs]; [reflexivity |].
  pose proof (request_data_trace request addon) as Ht.
  destruct (request_data request addon) as [t [e|data]]; cbn [trace fst] in Ht.
  - destruct Ht as [-> | ->]; cbn; rewrite ?Hbranch; reflexivity.
  - destruct (sys_websession_request self _) as [e|result]; cbn [trace fst];
      rewrite existsb_app; cbn [existsb]; rewrite ?respond_existsb by assumption;
      rewrite (Hbranch (BackendRequest _)) by reflexivity;
      destruct Ht as [-> | ->]; cbn; rewrite ?Hbranch; reflexivity.
Qed.

(** A predicate on events that holds of no event of the branch taken holds
    of no event of its run. *)
Lemma branch_existsb (p : Event -> bool) (self : APIIngress) (request : Request)
    (addon : Addon) :
  (forall ev, (if _is_websocket request then is_ws_event ev
               else is_http_event ev || is_delivery_event ev) = true ->
              p ev = false) ->
  existsb p (trace (branch HEADER_TOKEN HEADER_TOKEN_OLD ip_address self request addon)) = false.
Proof.
  intros Hbranch. unfold branch.
  destruct (_is_websocket request).
  - rewrite handle_websocket_run.
    destruct (_init_header HEADER_TOKEN HEADER_TOKEN_OLD ip_address request addon)
      as [e|hs]; [| destruct (sys_websession_ws_connect self _ hs _)];
      cbn; rewrite ?Hbranch; reflexivity.
  - now apply handle_request_existsb.
Qed.

(** X3: a request takes one branch only: an upgrade request makes no HTTP
    request on the backend and writes no response body, any other request
    makes no WebSocket handshake, connection or relay. *)
Theorem handler_branches_exclusive (self : APIIngress) (request : Request) :
  existsb (if _is_websocket request then is_http_event else is_ws_event)
    (trace (handler HEADER_TOKEN HEADER_TOKEN_OLD COOKIE_INGRESS ip_address self request))
  = false.
Proof.
  rewrite handler_run.
  destruct (sys_ingress_validate_session self _);
    [| now destruct (_is_websocket request)].
  destruct (sys_ingress_get self _) as [addon|];
    [| now destruct (_is_websocket request)].
  cbn zeta.
  assert (Hinner : existsb (if _is_websocket request then is_http_event else is_ws_event)
                     (trace (branch HEADER_TOKEN HEADER_TOKEN_OLD ip_address self request addon))
                   = false).
  { apply branch_existsb. destruct (_is_websocket request); intros [] H;
      try reflexivity; discriminate. }
  destruct (outcome (branch HEADER_TOKEN HEADER_TOKEN_OLD ip_address self request addon))
    as [e|reply]; [destruct (is_client_error e) |];
    cbn [trace fst existsb]; rewrite ?existsb_app, Hinner;
    now destruct (_is_websocket request).
Qed.

Lemma branch_connects_once (self : APIIngress) (request : Request) (addon : Addon) :
  length (filter is_connect
            (trace (branch HEADER_TOKEN HEADER_TOKEN_OLD ip_address self request addon))) <= 1.
Proof.
  unfold branch. destruct (_is_websocket request).
  - rewrite handle_websocket_run.
    destruct (_init_header HEADER_TOKEN HEADER_TOKEN_OLD ip_address request addon)
      as [e|hs]; [| destruct (sys_websession_ws_connect self _ hs _)]; cbn; lia.
  - rewrite handle_request_run.
    destruct (_init_header HEADER_TOKEN HEADER_TOKEN_OLD ip_address request addon)
      as [e|hs]; [cbn; lia |].
    pose proof (request_data_trace request addon) as Ht.
    destruct (request_data request addon) as [t [e|data]]; cbn [trace fst] in Ht.
    + destruct Ht as [-> | ->]; cbn; lia.
    + destruct (sys_websession_request self _) as [e|result]; cbn [trace fst];
        rewrite filter_app; cbn [filter is_connect];
        rewrite ?respond_filter by (intros [] H; try reflexivity; discriminate);
        destruct Ht as [-> | ->]; cbn; lia.
Qed.

Lemma filter_existsb {A} (p : A -> bool) (l : list A) :
  existsb p l = false -> filter p l = [].
Proof.
  induction l as [|x l IH]; [reflexivity |]. cbn.
  destruct (p x); [discriminate | exact IH].
Qed.

(** X4: every request gets exactly one session check, as the first thing
    done, at most one registry lookup and at most one attempt to connect to
    a backend, be it an HTTP request or a WebSocket connection: nothing is
    tried twice. *)
Theorem handler_checks_and_connects_once (self : APIIngress) (request : Request) :
  (exists rest,
     trace (handler HEADER_TOKEN HEADER_TOKEN_OLD COOKIE_INGRESS ip_address self request) =
     ValidateSession (Dict.get COOKIE_INGRESS (cookies request)) :: rest) /\
  length (filter is_session_check
            (trace (handler HEADER_TOKEN HEADER_TOKEN_OLD COOKIE_INGRESS ip_address self request)))
  = 1 /\
  length (filter is_lookup
            (trace (handler HEADER_TOKEN HEADER_TOKEN_OLD COOKIE_INGRESS ip_address self request)))
  <= 1 /\
  length (filter is_connect
            (trace (handler HEADER_TOKEN HEADER_TOKEN_OLD COOKIE_INGRESS ip_address self request)))
  <= 1.
Proof.
  rewrite handler_run.
  destruct (sys_ingress_validate_session self _);
    [| cbn; repeat split; [eexists; reflexivity | lia | lia]].
  destruct (sys_ingress_get self _) as [addon|];
    [| cbn; repeat split; [eexists; reflexivity | lia | lia]].
  cbn zeta.
  pose proof (branch_connects_once self request addon) as Hconnect.
  assert (Hcheck : filter is_session_check
                     (trace (branch HEADER_TOKEN HEADER_TOKEN_OLD ip_address self request addon))
                   = []).
  { apply filter_existsb, branch_existsb.
    destruct (_is_websocket request); intros [] H; try reflexivity; discriminate. }
  assert (Hlookup : filter is_lookup
                      (trace (branch HEADER_TOKEN HEADER_TOKEN_OLD ip_address self request addon))
                    = []).
  { apply filter_existsb, branch_existsb.
    destruct (_is_websocket request); intros [] H; try reflexivity; discriminate. }
  destruct (outcome (branch HEADER_TOKEN HEADER_TOKEN_OLD ip_address self request addon))
    as [e|reply]; [destruct (is_client_error e) |];
    cbn [trace fst filter is_session_check is_lookup is_connect length];
    rewrite ?filter_app, ?length_app, ?Hcheck, ?Hlookup;
    cbn [filter is_session_check is_lookup is_connect length app Nat.add];
    (split; [eexists; reflexivity | repeat split; lia]).
Qed.

(** X5: no error of the client session towards the backend leaves the
    handler: where the branch taken raises ClientError or one of its
    subclasses, the handler logs it and raises HTTPBadGateway, and every
    other exception of the branch leaves the handler as it is. *)
Theorem handler_client_error_is_bad_gateway (self : APIIngress) (request : Request) :
  outcome (handler HEADER_TOKEN HEADER_TOKEN_OLD COOKIE_INGRESS ip_address self request)
    <> inl ClientError /\
  outcome (handler HEADER_TOKEN HEADER_TOKEN_OLD COOKIE_INGRESS ip_address self request)
    <> inl ClientPayloadError /\
  (forall addon e,
     sys_ingress_validate_session self (Dict.get COOKIE_INGRESS (cookies request)) = true ->
     sys_ingress_get self (Dict.get "token" (match_info request)) = Some addon ->
     outcome (branch HEADER_TOKEN HEADER_TOKEN_OLD ip_address self request addon) = inl e ->
     handler HEADER_TOKEN HEADER_TOKEN_OLD COOKIE_INGRESS ip_address self request =
     if is_client_error e
     then (ValidateSession (Dict.get COOKIE_INGRESS (cookies request))
           :: IngressGet (Dict.get "token" (match_info request))
           :: (trace (branch HEADER_TOKEN HEADER_TOKEN_OLD ip_address self request addon)
               ++ [LogError "Ingress error: %s"])%list,
           inl HTTPBadGateway)
     else (ValidateSession (Dict.get COOKIE_INGRESS (cookies request))
           :: IngressGet (Dict.get "token" (match_info request))
           :: trace (branch HEADER_TOKEN HEADER_TOKEN_OLD ip_address self request addon),
           inl e)).
Proof.
  rewrite handler_run. split; [| split].
  - destruct (sys_ingress_validate_session self _); [| discriminate].
    destruct (sys_ingress_get self _) as [addon|]; [| discriminate].
    cbn zeta.
    destruct (outcome (branch HEADER_TOKEN HEADER_TOKEN_OLD ip_address self request addon))
      as [e|reply]; [destruct e |]; cbn; discriminate.
  - destruct (sys_ingress_validate_session self _); [| discriminate].
    destruct (sys_ingress_get self _) as [addon|]; [| discriminate].
    cbn zeta.
    destruct (outcome (branch HEADER_TOKEN HEADER_TOKEN_OLD ip_address self request addon))
      as [e|reply]; [destruct e |]; cbn; discriminate.
  - intros addon e Hvalid Hget Hraised.
    rewrite Hvalid, Hget. cbn zeta. rewrite Hraised. reflexivity.
Qed.

(** X6: without a usable peer address nothing is sent to a backend: when the
    transport gives no peer name, or a host that is no address, the handler
    makes no backend request and no WebSocket connection and returns no
    reply. *)
Theorem handler_without_peer_address (self : APIIngress) (request : Request) :
  (peername request = None \/
   exists host port, peername request = Some (host, port) /\ ip_address host = None) ->
  existsb is_connect
    (trace (handler HEADER_TOKEN HEADER_TOKEN_OLD COOKIE_INGRESS ip_address self request))
  = false /\
  forall reply,
    outcome (handler HEADER_TOKEN HEADER_TOKEN_OLD COOKIE_INGRESS ip_address self request)
    <> inr reply.
Proof.
  intros Hpeer.
  assert (Hinit : forall addon,
             exists e, _init_header HEADER_TOKEN HEADER_TOKEN_OLD ip_address request addon
                       = inl e /\ is_client_error e = false).
  { intros addon. unfold _init_header.
    destruct Hpeer as [-> | (host & port & -> & ->)]; eexists; split; reflexivity. }
  rewrite handler_run.
  destruct (sys_ingress_validate_session self _); [| split; [reflexivity | discriminate]].
  destruct (sys_ingress_get self _) as [addon|]; [| split; [reflexivity | discriminate]].
  cbn zeta. unfold branch. destruct (Hinit addon) as (e & He & Hclient).
  destruct (_is_websocket request);
    [rewrite handle_websocket_run | rewrite handle_request_run];
    rewrite He; cbn [trace outcome fst snd]; rewrite Hclient;
    (split; [reflexivity | discriminate]).
Qed.

(** X7: a request that lacks the Connection header or the Upgrade header is
    proxied as plain HTTP: no WebSocket handshake, connection or relay. *)
Theorem handler_without_upgrade_headers (self : APIIngress) (request : Request) :
  CIMultiDict.get hdrs.CONNECTION (headers request) = None \/
  CIMultiDict.get hdrs.UPGRADE (headers request) = None ->
  existsb is_ws_event
    (trace (handler HEADER_TOKEN HEADER_TOKEN_OLD COOKIE_INGRESS ip_address self request))
  = false.
Proof.
  intros Hmissing. apply is_websocket_needs_headers in Hmissing.
  rewrite handler_run.
  destruct (sys_ingress_validate_session self _); [| reflexivity].
  destruct (sys_ingress_get self _) as [addon|]; [| reflexivity].
  cbn zeta.
  assert (Hinner : existsb is_ws_event
                     (trace (branch HEADER_TOKEN HEADER_TOKEN_OLD ip_address self request addon))
                   = false).
  { apply branch_existsb. rewrite Hmissing. intros [] H; try reflexivity; discriminate. }
  destruct (outcome (branch HEADER_TOKEN HEADER_TOKEN_OLD ip_address self request addon))
    as [e|reply]; [destruct (is_client_error e) |];
    cbn [trace fst existsb is_ws_event]; rewrite ?existsb_app, Hinner; reflexivity.
Qed.

Lemma in_handler_branch (self : APIIngress) (request : Request) (ev : Event) :
  is_connect ev = true ->
  In ev (trace (handler HEADER_TOKEN HEADER_TOKEN_OLD COOKIE_INGRESS ip_address self request)) ->
  exists addon,
    sys_ingress_validate_session self (Dict.get COOKIE_INGRESS (cookies request)) = true /\
    sys_ingress_get self (Dict.get "token" (match_info request)) = Some addon /\
    In ev (trace (branch HEADER_TOKEN HEADER_TOKEN_OLD ip_address self request addon)).
Proof.
  intros Hev. rewrite handler_run.
  destruct (sys_ingress_validate_session self _);
    [| intros [<- | [<- | []]]; discriminate].
  destruct (sys_ingress_get self _) as [addon|];
    [| intros [<- | [<- | [<- | []]]]; discriminate].
  cbn zeta. intros Hin. exists addon. repeat split.
  destruct (outcome (branch HEADER_TOKEN HEADER_TOKEN_OLD ip_address self request addon))
    as [e|reply]; [destruct (is_client_error e) |]; cbn [trace fst] in Hin;
    destruct Hin as [<- | [<- | Hin]]; try discriminate; try assumption.
  apply in_app_or in Hin. destruct Hin as [Hin | [<- | []]]; [assumption | discriminate].
Qed.

(** X8: a request made on a backend goes to the add-on the registry gives
    for the token of an authorized request that is no upgrade: to the URL of
    that add-on and the matched path, with the method and the query of the
    client request, the transformed headers and the body picked for it. *)
Theorem handler_requests_resolved_addon (self : APIIngress) (request : Request)
    (call : ClientCall) :
  In (BackendRequest call)
     (trace (handler HEADER_TOKEN HEADER_TOKEN_OLD COOKIE_INGRESS ip_address self request)) ->
  exists addon source_header data,
    sys_ingress_validate_session self (Dict.get COOKIE_INGRESS (cookies request)) = true /\
    sys_ingress_get self (Dict.get "token" (match_info request)) = Some addon /\
    _is_websocket request = false /\
    _init_header HEADER_TOKEN HEADER_TOKEN_OLD ip_address request addon = inr source_header /\
    outcome (request_data request addon) = inr data /\
    call_method call = method request /\
    call_url call = _create_url addon (Dict.get "path" (match_info request)) /\
    call_headers call = source_header /\
    call_params call = query request /\
    call_data call = data.
Proof.
  intros Hin. apply in_handler_branch in Hin; [| reflexivity].
  destruct Hin as (addon & Hvalid & Hget & Hin). exists addon.
  unfold branch in Hin. destruct (_is_websocket request).
  - exfalso. rewrite handle_websocket_run in Hin.
    destruct (_init_header HEADER_TOKEN HEADER_TOKEN_OLD ip_address request addon)
      as [e|hs]; [| destruct (sys_websession_ws_connect self _ hs _)];
      cbn in Hin; repeat (destruct Hin as [Hin | Hin]; [discriminate |]); exact Hin.
  - rewrite handle_request_run in Hin.
    destruct (_init_header HEADER_TOKEN HEADER_TOKEN_OLD ip_address request addon)
      as [e|hs]; [destruct Hin |].
    pose proof (request_data_trace request addon) as Ht.
    destruct (request_data request addon) as [t [e|data]] eqn:Hdata; cbn [trace fst] in *.
    + exfalso. destruct Ht as [-> | ->]; [destruct Hin | destruct Hin as [H | []]].
      discriminate.
    + exists hs, data.
      assert (Hcall : call = backend_call request addon
                               (Dict.get "path" (match_info request)) hs data).
      { destruct (sys_websession_request self _) as [e|result]; cbn [trace fst] in Hin;
          apply in_app_or in Hin; destruct Hin as [Hin | Hin].
        - exfalso. destruct Ht as [-> | ->]; [destruct Hin | destruct Hin as [H | []]].
          discriminate.
        - destruct Hin as [H | []]. now injection H.
        - exfalso. destruct Ht as [-> | ->]; [destruct Hin | destruct Hin as [H | []]].
          discriminate.
        - destruct Hin as [H | Hin]; [now injection H |].
          exfalso. eapply respond_no_backend_request. exact Hin. }
      subst call. cbn. repeat split; assumption.
Qed.

(** X9: a WebSocket connection to a backend is made for an authorized
    upgrade request only, to the add-on the registry gives for its token:
    at the URL of that add-on and the matched path, followed by the query
    string when there is one, with the transformed headers, and with the
    very list of sub-protocols the client handshake was prepared with
    before. *)
Theorem handler_connects_resolved_addon (self : APIIngress) (request : Request)
    (url : string) (source_header : Dict.t) (protocols : list string) :
  In (WsConnect url source_header protocols)
     (trace (handler HEADER_TOKEN HEADER_TOKEN_OLD COOKIE_INGRESS ip_address self request)) ->
  exists addon,
    sys_ingress_validate_session self (Dict.get COOKIE_INGRESS (cookies request)) = true /\
    sys_ingress_get self (Dict.get "token" (match_info request)) = Some addon /\
    _is_websocket request = true /\
    _init_header HEADER_TOKEN HEADER_TOKEN_OLD ip_address request addon = inr source_header /\
    url = (if query_string request =? ""
           then _create_url addon (Dict.get "path" (match_info request))
           else _create_url addon (Dict.get "path" (match_info request))
                ++ "?" ++ query_string request) /\
    exists before after,
      trace (branch HEADER_TOKEN HEADER_TOKEN_OLD ip_address self request addon) =
      (before ++ WsPrepare protocols :: WsConnect url source_header protocols :: after)%list.
Proof.
  intros Hin. apply in_handler_branch in Hin; [| reflexivity].
  destruct Hin as (addon & Hvalid & Hget & Hin). exists addon.
  unfold branch in *. destruct (_is_websocket request).
  - rewrite handle_websocket_run in *. fold (websocket_url request addon
                                               (Dict.get "path" (match_info request))).
    destruct (_init_header HEADER_TOKEN HEADER_TOKEN_OLD ip_address request addon)
      as [e|hs]; [destruct Hin as [H | []]; discriminate |].
    destruct (sys_websession_ws_connect self _ hs _); cbn [trace fst] in *;
      destruct Hin as [H | [H | Hin]]; try discriminate;
      try (injection H as <- <- <-; repeat split; try assumption;
           exists []; eexists; reflexivity).
    + destruct Hin.
    + destruct Hin as [H | []]. discriminate.
  - exfalso.
    assert (Hno : existsb is_ws_event
                    (trace (_handle_request HEADER_TOKEN HEADER_TOKEN_OLD ip_address self
                              request addon (Dict.get "path" (match_info request)))) = false).
    { apply handle_request_existsb. intros [] H; try reflexivity; discriminate. }
    assert (Hyes : existsb is_ws_event
                     (trace (_handle_request HEADER_TOKEN HEADER_TOKEN_OLD ip_address self
                               request addon (Dict.get "path" (match_info request)))) = true).
    { apply existsb_exists. eexists. split; [exact Hin | reflexivity]. }
    congruence.
Qed.

End DispatcherRuns.

(** ** Sub-protocols of an upgrade *)

Lemma lstrip_head (s : string) :
  match Py.lstrip s with
  | EmptyString => True
  | String c _ => Py.is_space c = false
  end.
Proof.
  induction s as [|c r IH]; cbn [Py.lstrip]; [exact I |].
  destruct (Py.is_space c) eqn:E; [exact IH | exact E].
Qed.

Lemma rstrip_rstrip (s : string) : Py.rstrip (Py.rstrip s) = Py.rstrip s.
Proof.
  induction s as [|c r IH]; [reflexivity |].
  cbn [Py.rstrip]. destruct (Py.rstrip r) as [|d r'] eqn:E.
  - destruct (Py.is_space c) eqn:Hc; [reflexivity |]. cbn [Py.rstrip]. now rewrite Hc.
  - change (Py.rstrip (String c (String d r')))
      with (match Py.rstrip (String d r') with
            | EmptyString =>
                if Py.is_space c then EmptyString else String c EmptyString
            | kept => String c kept
            end).
    now rewrite IH.
Qed.

Lemma strip_strip (s : string) : Py.strip (Py.strip s) = Py.strip s.
Proof.
  unfold Py.strip. pose proof (lstrip_head s) as Hhead.
  destruct (Py.lstrip s) as [|c r]; [reflexivity |].
  assert (Hkeep : Py.lstrip (Py.rstrip (String c r)) = Py.rstrip (String c r)).
  { cbn [Py.rstrip]. destruct (Py.rstrip r); rewrite ?Hhead; cbn [Py.lstrip];
      now rewrite Hhead. }
  rewrite Hkeep. apply rstrip_rstrip.
Qed.

Lemma split_length (sep : ascii) (s : string) :
  length (Py.split sep s) = S (count_char sep s).
Proof.
  induction s as [|c r IH]; [reflexivity |].
  cbn [Py.split count_char]. destruct (Ascii.eqb c sep).
  - cbn [length]. now rewrite IH.
  - destruct (Py.split sep r); [discriminate | exact IH].
Qed.

Lemma join_more (sep piece next : string) (rest : list string) :
  join sep (piece :: next :: rest) = piece ++ sep ++ join sep (next :: rest).
Proof. reflexivity. Qed.

Lemma split_join (sep : ascii) (s : string) :
  join (String sep "") (Py.split sep s) = s.
Proof.
  induction s as [|c r IH]; [reflexivity |].
  cbn [Py.split].
  destruct (Py.split sep r) as [|w ws] eqn:Hsplit.
  { pose proof (split_length sep r) as Hlen. rewrite Hsplit in Hlen. discriminate. }
  destruct (Ascii.eqb c sep) eqn:E.
  - apply Ascii.eqb_eq in E. subst c.
    rewrite join_more, IH. reflexivity.
  - destruct ws as [|next ws].
    + cbn [join] in *. now rewrite IH.
    + rewrite join_more in *.
      change (String c (w ++ String sep "" ++ join (String sep "") (next :: ws))
              = String c r).
      now rewrite IH.
Qed.

Lemma split_pieces (sep : ascii) (s : string) :
  Forall (fun piece => count_char sep piece = 0) (Py.split sep s).
Proof.
  induction s as [|c r IH]; [repeat constructor |].
  cbn [Py.split]. destruct (Ascii.eqb c sep) eqn:E.
  - constructor; [reflexivity | exact IH].
  - destruct (Py.split sep r) as [|w ws]; [repeat constructor; cbn; now rewrite E |].
    inversion IH as [|? ? Hw Hws]; subst.
    constructor; [cbn [count_char]; now rewrite E | exact Hws].
Qed.

(** X10: the sub-protocols of an upgrade: none when the request has no
    Sec-WebSocket-Protocol header; otherwise the pieces between the commas
    of the first such header, each stripped of white space at both ends and
    in their order: the pieces hold no comma, are one more than the value
    has commas, and joined by commas they give the value back.  The reply
    returned for the client carries the list the handshake was prepared
    with. *)
Theorem websocket_protocols_trimmed (HEADER_TOKEN HEADER_TOKEN_OLD : string)
    (ip_address : string -> option string) (self : APIIngress) (request : Request)
    (addon : Addon) (path : option string) :
  exists protocols rest,
    trace (_handle_websocket HEADER_TOKEN HEADER_TOKEN_OLD ip_address self request addon path)
    = WsPrepare protocols :: rest /\
    (forall reply,
       outcome (_handle_websocket HEADER_TOKEN HEADER_TOKEN_OLD ip_address self request
                  addon path) = inr reply ->
       reply = WebSocketResponse protocols) /\
    match CIMultiDict.get hdrs.SEC_WEBSOCKET_PROTOCOL (headers request) with
    | None => protocols = []
    | Some value =>
        exists pieces,
          join "," pieces = value /\
          Forall (fun piece => count_char "," piece = 0) pieces /\
          length pieces = S (count_char "," value) /\
          protocols = map Py.strip pieces
    end /\
    Forall (fun p => Py.strip p = p) protocols.
Proof.
  exists (requested_protocols request).
  rewrite handle_websocket_run.
  assert (Hform : match CIMultiDict.get hdrs.SEC_WEBSOCKET_PROTOCOL (headers request) with
                  | None => requested_protocols request = []
                  | Some value =>
                      exists pieces,
                        join "," pieces = value /\
                        Forall (fun piece => count_char "," piece = 0) pieces /\
                        length pieces = S (count_char "," value) /\
                        requested_protocols request = map Py.strip pieces
                  end /\
                  Forall (fun p => Py.strip p = p) (requested_protocols request)).
  { unfold requested_protocols, CIMultiDict.get_default.
    destruct (CIMultiDict.contains hdrs.SEC_WEBSOCKET_PROTOCOL (headers request)) eqn:E.
    - apply cimultidict_contains_get in E.
      destruct (CIMultiDict.get hdrs.SEC_WEBSOCKET_PROTOCOL (headers request)) as [v|];
        [| congruence].
      split.
      + exists (Py.split "," v).
        split; [apply split_join |].
        split; [apply split_pieces |].
        split; [apply split_length | reflexivity].
      + apply Forall_forall. intros p Hp. apply in_map_iff in Hp.
        destruct Hp as [q [<- _]]. apply strip_strip.
    - destruct (CIMultiDict.get hdrs.SEC_WEBSOCKET_PROTOCOL (headers request)) eqn:G.
      + assert (CIMultiDict.contains hdrs.SEC_WEBSOCKET_PROTOCOL (headers request) = true)
          by (apply cimultidict_contains_get; congruence).
        congruence.
      + split; [reflexivity | constructor]. }
  destruct (_init_header HEADER_TOKEN HEADER_TOKEN_OLD ip_address request addon)
    as [e|hs]; [| destruct (sys_websession_ws_connect self _ hs _)];
    eexists; (split; [reflexivity | split; [| exact Hform]]);
    intros reply H; cbn in H; congruence.
Qed.

(** ** Failures while a response is streamed *)


(** ** Runs of the forwarding loop *)

Section ForwardRuns.

Variable Conn : Type.
Variable closed : Conn -> bool.
Variable close_code : Conn -> option Z.
Variable perform : WSCall -> Conn -> Conn * option Exn.
Variable meanwhile : Conn -> Conn.

Lemma forward_loop_app (pre rest : list WSMessage) (stop : option Exn) :
  forall ws_to : Conn,
    forward_loop closed close_code perform meanwhile (pre ++ rest) stop ws_to =
    match forward_loop closed close_code perform meanwhile pre None ws_to with
    | (ws1, made, Some e) => (ws1, made, Some e)
    | (ws1, made, None) =>
        let '(ws2, more, err) :=
          forward_loop closed close_code perform meanwhile rest stop ws1 in
        (ws2, (made ++ more)%list, err)
    end.
Proof.
  induction pre as [|msg pre IH]; intros ws_to.
  - cbn. now destruct (forward_loop closed close_code perform meanwhile rest stop ws_to)
      as [[ws2 more] err].
  - cbn [app forward_loop].
    destruct (forward_msg closed close_code perform msg (meanwhile ws_to))
      as [[ws1 made] [e|]]; [reflexivity |].
    rewrite IH.
    destruct (forward_loop closed close_code perform meanwhile pre None ws1)
      as [[ws2 made'] [e|]]; [reflexivity |].
    destruct (forward_loop closed close_code perform meanwhile rest stop ws2)
      as [[ws3 more] err].
    now rewrite app_assoc.
Qed.

(** X12: the loop works through its messages one after the other.  A run on
    [pre ++ rest] is the run on [pre] when that one ended in a raising call,
    whatever [rest] holds: nothing is forwarded after a failure.  Otherwise
    it is the run on [pre] followed by the run on [rest] against the
    destination as the first run left it. *)
Theorem websocket_forward_sequential (pre rest : list WSMessage) (stop : option Exn)
    (ws_to : Conn) :
  _websocket_forward closed close_code perform meanwhile (pre ++ rest) stop ws_to =
  let first := _websocket_forward closed close_code perform meanwhile pre None ws_to in
  if warned first || match escaped first with Some _ => true | None => false end
  then first
  else
    let second :=
      _websocket_forward closed close_code perform meanwhile rest stop (ws_after first) in
    {| ws_after := ws_after second;
       calls := (calls first ++ calls second)%list;
       warned := warned second;
       escaped := escaped second |}.
Proof.
  unfold _websocket_forward. rewrite forward_loop_app.
  destruct (forward_loop closed close_code perform meanwhile pre None ws_to)
    as [[ws1 made] [e|]].
  - destruct e; reflexivity.
  - cbn [ws_after calls warned escaped orb].
    destruct (forward_loop closed close_code perform meanwhile rest stop ws1)
      as [[ws2 more] [e|]]; [destruct e |]; reflexivity.
Qed.

Lemma forward_loop_call_bound (stop : option Exn) (msgs : list WSMessage) :
  forall ws_to : Conn,
    length (snd (fst (forward_loop closed close_code perform meanwhile msgs stop ws_to)))
    <= length msgs.
Proof.
  induction msgs as [|msg rest IH]; intros ws_to; [cbn; lia |].
  cbn [forward_loop].
  pose proof (proj1 (forward_msg_calls closed close_code perform msg (meanwhile ws_to)))
    as Hmade.
  destruct (forward_msg closed close_code perform msg (meanwhile ws_to))
    as [[ws1 made] err]. cbn [fst snd] in Hmade.
  assert (Hone : length made <= 1).
  { rewrite Hmade. destruct (is_data_frame msg); [cbn; lia |].
    destruct (closed (meanwhile ws_to)); cbn; lia. }
  destruct err as [e|]; [cbn [fst snd length]; lia |].
  specialize (IH ws1).
  destruct (forward_loop closed close_code perform meanwhile rest stop ws1)
    as [[ws2 more] err']. cbn [fst snd length] in *. rewrite length_app. lia.
Qed.

(** X13: the loop makes at most one call on the destination per message of
    its source, and no RuntimeError leaves it: where the warning is logged
    the coroutine ends without an exception. *)
Theorem websocket_forward_bounded (msgs : list WSMessage) (stop : option Exn) (ws_to : Conn) :
  length (calls (_websocket_forward closed close_code perform meanwhile msgs stop ws_to))
  <= length msgs /\
  escaped (_websocket_forward closed close_code perform meanwhile msgs stop ws_to)
  <> Some RuntimeError /\
  (warned (_websocket_forward closed close_code perform meanwhile msgs stop ws_to) = true ->
   escaped (_websocket_forward closed close_code perform meanwhile msgs stop ws_to) = None).
Proof.
  split.
  - rewrite websocket_forward_calls. apply forward_loop_call_bound.
  - unfold _websocket_forward.
    destruct (forward_loop closed close_code perform meanwhile msgs stop ws_to)
      as [[ws_end made] [e|]]; [destruct e |]; cbn;
      split; try discriminate; try reflexivity; intros H; discriminate.
Qed.

End ForwardRuns.

(** ** The panel listing *)

Lemma lookup_assign_same {V} (key : string) (value : V) (d : list (string * V)) :
  lookup key (assign key value d) = Some value.
Proof.
  induction d as [|[k v] r IH]; cbn.
  - now rewrite String.eqb_refl.
  - destruct (k =? key) eqn:E; cbn; rewrite E; auto.
Qed.

Lemma lookup_assign_other {V} (key key' : string) (value : V) (d : list (string * V)) :
  key <> key' -> lookup key' (assign key value d) = lookup key' d.
Proof.
  intros Hne. induction d as [|[k v] r IH]; cbn.
  - destruct (key =? key') eqn:E; [| reflexivity].
    apply String.eqb_eq in E. contradiction.
  - destruct (k =? key) eqn:E; cbn.
    + apply String.eqb_eq in E. subst k.
      destruct (key =? key') eqn:E'; [| reflexivity].
      apply String.eqb_eq in E'. contradiction.
    + destruct (k =? key'); auto.
Qed.

Lemma assign_keys {V} (key name : string) (value : V) (d : list (string * V)) :
  In name (map fst (assign key value d)) <-> name = key \/ In name (map fst d).
Proof.
  induction d as [|[k v] r IH]; cbn.
  - intuition.
  - destruct (k =? key) eqn:E; cbn.
    + apply String.eqb_eq in E. subst k. intuition.
    + rewrite IH. intuition.
Qed.

Lemma assign_nodup {V} (key : string) (value : V) (d : list (string * V)) :
  NoDup (map fst d) -> NoDup (map fst (assign key value d)).
Proof.
  induction d as [|[k v] r IH]; cbn; intros Hnd.
  - constructor; [intros [] | constructor].
  - inversion Hnd as [|? ? Hnotin Hrest]; subst.
    destruct (k =? key) eqn:E; cbn.
    + now constructor.
    + constructor; [| now apply IH].
      intros Hin. apply assign_keys in Hin. destruct Hin as [-> | Hin]; [| contradiction].
      now rewrite String.eqb_refl in E.
Qed.

Section PanelListing.

Variables ATTR_TITLE ATTR_ICON ATTR_ADMIN ATTR_ENABLE ATTR_PANELS : string.
Variable Value : Type.
Variable slug : Addon -> string.
Variables panel_title panel_icon panel_admin ingress_panel : Addon -> Value.

Lemma collect_panels_lookup (s : string) (addons : list Addon) :
  forall listing,
    lookup s (collect_panels ATTR_TITLE ATTR_ICON ATTR_ADMIN ATTR_ENABLE slug
                panel_title panel_icon panel_admin ingress_panel addons listing) =
    match last_with_slug slug s addons with
    | Some addon =>
        Some (panel_entry ATTR_TITLE ATTR_ICON ATTR_ADMIN ATTR_ENABLE
                panel_title panel_icon panel_admin ingress_panel addon)
    | None => lookup s listing
    end.
Proof.
  induction addons as [|addon rest IH]; intros listing; [reflexivity |].
  cbn [collect_panels last_with_slug]. rewrite IH.
  destruct (last_with_slug slug s rest); [reflexivity |].
  destruct (slug addon =? s) eqn:E.
  - apply String.eqb_eq in E. subst s. apply lookup_assign_same.
  - apply String.eqb_neq in E. now apply lookup_assign_other.
Qed.

Lemma collect_panels_nodup (addons : list Addon) :
  forall listing,
    NoDup (map fst listing) ->
    NoDup (map fst (collect_panels ATTR_TITLE ATTR_ICON ATTR_ADMIN ATTR_ENABLE slug
                      panel_title panel_icon panel_admin ingress_panel addons listing)).
Proof.
  induction addons as [|addon rest IH]; intros listing Hnd; [assumption |].
  cbn [collect_panels]. apply IH. now apply assign_nodup.
Qed.

(** X14: the panel listing has one entry per slug: for every slug the data
    of the last add-on of the ingress service that bears it, and no entry
    for a slug no add-on bears.  With four different attribute names an
    entry gives back the title, icon, admin flag and panel flag of its
    add-on. *)
Theorem panels_one_entry_per_slug (addons : list Addon) :
  exists listing,
    panels ATTR_TITLE ATTR_ICON ATTR_ADMIN ATTR_ENABLE ATTR_PANELS slug
      panel_title panel_icon panel_admin ingress_panel addons
    = [(ATTR_PANELS, listing)] /\
    NoDup (map fst listing) /\
    (forall s,
       lookup s listing =
       option_map (panel_entry ATTR_TITLE ATTR_ICON ATTR_ADMIN ATTR_ENABLE
                     panel_title panel_icon panel_admin ingress_panel)
         (last_with_slug slug s addons)) /\
    (NoDup [ATTR_TITLE; ATTR_ICON; ATTR_ADMIN; ATTR_ENABLE] ->
     forall addon,
       let entry := panel_entry ATTR_TITLE ATTR_ICON ATTR_ADMIN ATTR_ENABLE
                      panel_title panel_icon panel_admin ingress_panel addon in
       lookup ATTR_TITLE entry = Some (panel_title addon) /\
       lookup ATTR_ICON entry = Some (panel_icon addon) /\
       lookup ATTR_ADMIN entry = Some (panel_admin addon) /\
       lookup ATTR_ENABLE entry = Some (ingress_panel addon)).
Proof.
  eexists. split; [reflexivity |]. split; [| split].
  - apply collect_panels_nodup. constructor.
  - intros s. rewrite collect_panels_lookup.
    now destruct (last_with_slug slug s addons).
  - intros Hnames addon entry. subst entry. unfold panel_entry.
    inversion Hnames as [|? ? H1 Hrest1]; subst.
    inversion Hrest1 as [|? ? H2 Hrest2]; subst.
    inversion Hrest2 as [|? ? H3 _]; subst.
    cbn [In] in H1, H2, H3.
    repeat split;
      repeat first [ rewrite lookup_assign_same; reflexivity
                   | rewrite lookup_assign_other by (intros ->; tauto) ].
Qed.

End PanelListing.

(** ** The further properties at concrete requests *)

Lemma handler_client_error_is_bad_gateway_witness :
  outcome (handler Sample.HEADER_TOKEN Sample.HEADER_TOKEN_OLD Sample.COOKIE_INGRESS
             ipv4_address Case.unreachable
             (Sample.request "GET" [] Case.session "abc"))
  = inl HTTPBadGateway.
Proof.
  rewrite (proj2 (proj2 (@handler_client_error_is_bad_gateway
                           Sample.HEADER_TOKEN Sample.HEADER_TOKEN_OLD Sample.COOKIE_INGRESS
                           ipv4_address Case.unreachable
                           (Sample.request "GET" [] Case.session "abc")))
             Sample.addon ClientError eq_refl eq_refl eq_refl).
  reflexivity.
Defined.

Lemma handler_without_peer_address_witness :
  existsb is_connect
    (trace (handler Sample.HEADER_TOKEN Sample.HEADER_TOKEN_OLD Sample.COOKIE_INGRESS
              ipv4_address Sample.self Case.no_peer_request)) = false.
Proof.
  apply (@handler_without_peer_address
           Sample.HEADER_TOKEN Sample.HEADER_TOKEN_OLD Sample.COOKIE_INGRESS
           ipv4_address Sample.self Case.no_peer_request).
  left. reflexivity.
Defined.

Lemma handler_without_upgrade_headers_witness :
  existsb is_ws_event
    (trace (handler Sample.HEADER_TOKEN Sample.HEADER_TOKEN_OLD Sample.COOKIE_INGRESS
              ipv4_address Sample.self
              (Sample.request "GET" [("Connection", "Upgrade")] Case.session "abc")))
  = false.
Proof.
  apply (@handler_without_upgrade_headers
           Sample.HEADER_TOKEN Sample.HEADER_TOKEN_OLD Sample.COOKIE_INGRESS
           ipv4_address Sample.self
           (Sample.request "GET" [("Connection", "Upgrade")] Case.session "abc")).
  right. reflexivity.
Defined.

Lemma handler_requests_resolved_addon_witness :
  exists addon,
    sys_ingress_get Sample.self (Some "abc") = Some addon /\
    call_url Case.get_call = _create_url addon (Some "index.html").
Proof.
  destruct (@handler_requests_resolved_addon
              Sample.HEADER_TOKEN Sample.HEADER_TOKEN_OLD Sample.COOKIE_INGRESS
              ipv4_address Sample.self
              (Sample.request "GET" [] Case.session "abc") Case.get_call)
    as (addon & hs & data & _ & Hget & _ & _ & _ & _ & Hurl & _).
  - right. right. right. left. reflexivity.
  - exists addon. split; [exact Hget | exact Hurl].
Defined.

Lemma handler_connects_resolved_addon_witness :
  exists addon,
    sys_ingress_get Sample.self (Some "abc") = Some addon /\
    "http://172.30.33.2:8099/ws?v=1" = _create_url addon (Some "ws") ++ "?" ++ "v=1".
Proof.
  destruct (@handler_connects_resolved_addon
              Sample.HEADER_TOKEN Sample.HEADER_TOKEN_OLD Sample.COOKIE_INGRESS
              ipv4_address Sample.self Case.upgrade_request
              "http://172.30.33.2:8099/ws?v=1"
              [("Connection", "Upgrade"); ("Upgrade", "websocket");
               ("X-Forwarded-For", "None, 10.0.0.5")]
              ["mqtt"; "wamp"])
    as (addon & _ & Hget & _ & _ & Hurl & _).
  - right. right. right. left. reflexivity.
  - exists addon. split; [exact Hget | exact Hurl].
Defined.


Lemma panels_one_entry_per_slug_witness :
  lookup "title"
    (panel_entry "title" "icon" "admin" "enable"
       (fun _ => "Terminal") (fun _ => "mdi:console") (fun _ => "true") (fun _ => "true")
       Sample.addon)
  = Some "Terminal".
Proof.
  destruct (@panels_one_entry_per_slug "title" "icon" "admin" "enable" "panels" string
              (fun _ => "core_ssh")
              (fun _ => "Terminal") (fun _ => "mdi:console") (fun _ => "true")
              (fun _ => "true") [Sample.addon])
    as (listing & _ & _ & _ & Hentry).
  apply Hentry.
  repeat constructor; simpl; intros H;
    repeat (destruct H as [H | H]; [discriminate |]); exact H.
Defined.
